(** * plan.Calculate: a shallow embedding of [plan/plan.go]

    The planner turns a list of current and a list of desired DNS records
    into create, update and delete actions.  Records are handled through
    pointers ([*endpoint.Endpoint]) and some of them are written to while
    the plan is computed, so the embedding keeps an explicit store of
    records and passes it through every function that reads or writes one.

    Conventions of the model.
    - A pointer is an index into the store; a pointer that the store does
      not hold stands for [nil], and dereferencing it is a panic, which the
      model renders as [None].
    - A Go slice whose nil-ness the code can observe is an [option (list _)]
      with [None] for the nil slice.
    - A label map is a value of the record that carries it: two distinct
      records never share one map object.
    - Strings are byte strings.  [strings.ToLower] and [strings.TrimSpace]
      are modelled on ASCII input, where Go takes its byte-wise fast path;
      statements about them carry an [isASCII] premise. *)

From Stdlib Require Import ZArith String Ascii.
From stdpp Require Import base option list gmap strings fin_maps.

Local Open Scope string_scope.
Local Open Scope list_scope.

(** ** Go slices and maps *)

Definition slice (A : Type) : Type := option (list A).

Definition elems {A} (s : slice A) : list A := default [] s.

(** [append(s, xs...)]: appending nothing to a nil slice yields nil. *)
Definition append {A} (s : slice A) (xs : list A) : slice A :=
  match s, xs with
  | None, [] => None
  | None, _ :: _ => Some xs
  | Some l, _ => Some (l ++ xs)
  end.

(** A Go [map[string]string]; [None] is the nil map. *)
Definition labelMap : Type := option (gmap string string).

(** The two-valued read [v, ok := m[k]]; a nil map reads as empty. *)
Definition labelLookup (m : labelMap) (k : string) : option string :=
  match m with
  | None => None
  | Some g => g !! k
  end.

(** The one-valued read [m[k]]: the zero value when the key is absent. *)
Definition labelGet (m : labelMap) (k : string) : string :=
  default "" (labelLookup m k).

(** [m[k] = v]; writing to a nil map panics. *)
Definition labelSet (m : labelMap) (k v : string) : option labelMap :=
  match m with
  | None => None
  | Some g => Some (Some (<[k := v]> g))
  end.

(** ** Records of package [endpoint] as far as the planner reads them *)

Record ProviderSpecificProperty : Type := mkProperty {
  Name : string;
  Value : string
}.

Record Endpoint : Type := mkEndpoint {
  DNSName : string;
  Targets : list string;
  RecordType : string;
  SetIdentifier : string;
  RecordTTL : Z;
  Labels : labelMap;
  ProviderSpecific : list ProviderSpecificProperty
}.

Definition withLabels (e : Endpoint) (m : labelMap) : Endpoint :=
  {| DNSName := DNSName e;
     Targets := Targets e;
     RecordType := RecordType e;
     SetIdentifier := SetIdentifier e;
     RecordTTL := RecordTTL e;
     Labels := m;
     ProviderSpecific := ProviderSpecific e |}.

(** What package [endpoint] supplies and [plan.go] only uses: the label key
    of the owner, the record type constants, [TTL.IsConfigured] and
    [Targets.Same]. *)
Class EndpointPkg : Type := {
  OwnerLabelKey : string;
  RecordTypeA : string;
  RecordTypeAAAA : string;
  RecordTypeCNAME : string;
  RecordTypeTXT : string;
  IsConfigured : Z -> bool;
  Same : list string -> list string -> bool
}.

(** Modelled from the spec: [endpoint.MatchAllDomainFilters(nil)], the
    domain filter a nil filter defaults to, "match everything". *)
Definition MatchAllDomainFilters : string -> bool := fun _ => true.

(** ** The store of records *)

Abbreviation loc := nat (only parsing).
Abbreviation store := (list Endpoint) (only parsing).

(** ** Strings *)

Definition isUpper (a : ascii) : bool :=
  let n := nat_of_ascii a in (65 <=? n)%nat && (n <=? 90)%nat.

Definition toLowerByte (a : ascii) : ascii :=
  if isUpper a then ascii_of_nat (nat_of_ascii a + 32) else a.

(** The white space of [strings.TrimSpace] below [utf8.RuneSelf]:
    tab, line feed, vertical tab, form feed, carriage return, space. *)
Definition isSpace (a : ascii) : bool :=
  let n := nat_of_ascii a in
  ((9 <=? n)%nat && (n <=? 13)%nat) || (n =? 32)%nat.

Definition isASCIIByte (a : ascii) : bool := (nat_of_ascii a <? 128)%nat.

Fixpoint isASCII (s : string) : bool :=
  match s with
  | EmptyString => true
  | String a r => isASCIIByte a && isASCII r
  end.

Fixpoint ToLower (s : string) : string :=
  match s with
  | EmptyString => EmptyString
  | String a r => String (toLowerByte a) (ToLower r)
  end.

Fixpoint trimLeft (s : string) : string :=
  match s with
  | EmptyString => EmptyString
  | String a r => if isSpace a then trimLeft r else s
  end.

Fixpoint trimRight (s : string) : string :=
  match s with
  | EmptyString => EmptyString
  | String a r =>
      match trimRight r with
      | EmptyString => if isSpace a then EmptyString else String a EmptyString
      | r' => String a r'
      end
  end.

Definition TrimSpace (s : string) : string := trimRight (trimLeft s).

Fixpoint dropBytes (n : nat) (s : string) : string :=
  match n, s with
  | O, _ => s
  | S n', String _ r => dropBytes n' r
  | S _, EmptyString => EmptyString
  end.

(** [strings.HasSuffix]: [len(s) >= len(suffix)] and the tail of [s] of that
    length is [suffix]. *)
Definition HasSuffix (s suf : string) : bool :=
  (String.length suf <=? String.length s)%nat
  && bool_decide (dropBytes (String.length s - String.length suf) s = suf).

(** [normalizeDNSName]: lower case, then trim, then a dot unless there is
    one. *)
Definition normalizeDNSName (dnsName : string) : string :=
  let s := TrimSpace (ToLower dnsName) in
  if negb (HasSuffix s ".") then s +:+ "." else s.


(** ** Plans, changes and the grouping table *)

Record Changes : Type := mkChanges {
  Create : slice loc;
  UpdateOld : slice loc;
  UpdateNew : slice loc;
  Delete : slice loc
}.

(** [Policy.Apply], an interface of the package whose implementations are
    supplied by the caller. *)
Definition Policy : Type := Changes -> Changes.

Definition propertyComparator : Type := string -> string -> string -> bool.

Record Plan : Type := mkPlan {
  Current : list loc;
  Desired : list loc;
  Missing : list loc;
  Policies : list Policy;
  PlanChanges : option Changes;
  DomainFilter : option (string -> bool);
  PropertyComparator : option propertyComparator;
  ManagedRecords : list string;
  TXTOwner : string;
  HasMig : bool;
  TXTOwnerMigrate : bool;
  TXTOwnerOld : string
}.

Definition withDomainFilter (p : Plan) (f : option (string -> bool)) : Plan :=
  {| Current := Current p;
     Desired := Desired p;
     Missing := Missing p;
     Policies := Policies p;
     PlanChanges := PlanChanges p;
     DomainFilter := f;
     PropertyComparator := PropertyComparator p;
     ManagedRecords := ManagedRecords p;
     TXTOwner := TXTOwner p;
     HasMig := HasMig p;
     TXTOwnerMigrate := TXTOwnerMigrate p;
     TXTOwnerOld := TXTOwnerOld p |}.

Record planKey : Type := mkPlanKey {
  dnsName : string;
  setIdentifier : string;
  recordType : string
}.

Global Instance planKey_eq_dec : EqDecision planKey.
Proof. solve_decision. Defined.

Global Instance planKey_countable : Countable planKey.
Proof.
  refine (inj_countable'
            (fun k => (dnsName k, setIdentifier k, recordType k))
            (fun t => mkPlanKey t.1.1 t.1.2 t.2) _).
  by intros [].
Defined.

Record planTableRow : Type := mkRow {
  current : option loc;
  candidates : list loc
}.

(** The [ConflictResolver] interface; [newPlanTable] fixes it to the
    package's [PerResource]. *)
Class ConflictResolver : Type := {
  ResolveCreate : store -> list loc -> loc;
  ResolveUpdate : store -> loc -> list loc -> loc
}.

(** The locals of the loop over the rows, and the store. *)
Record loopState : Type := mkLoop {
  changes : Changes;
  hasMig : bool;
  heap : store
}.

Definition emptyChanges : Changes :=
  {| Create := None; UpdateOld := None; UpdateNew := None; Delete := None |}.

Definition appendCreate (c : Changes) (l : list loc) : Changes :=
  {| Create := append (Create c) l; UpdateOld := UpdateOld c;
     UpdateNew := UpdateNew c; Delete := Delete c |}.

Definition appendDelete (c : Changes) (l : list loc) : Changes :=
  {| Create := Create c; UpdateOld := UpdateOld c;
     UpdateNew := UpdateNew c; Delete := append (Delete c) l |}.

(** [UpdateNew = append(UpdateNew, new)] then [UpdateOld = append(UpdateOld, old)]. *)
Definition appendUpdate (c : Changes) (new old : loc) : Changes :=
  {| Create := Create c; UpdateOld := append (UpdateOld c) [old];
     UpdateNew := append (UpdateNew c) [new]; Delete := Delete c |}.

(** ** The functions of plan.go *)

Fixpoint IsManagedRecord (record : string) (managedRecords : list string) : bool :=
  match managedRecords with
  | [] => false
  | r :: rest => if bool_decide (record = r) then true else IsManagedRecord record rest
  end.

(** [strconv.ParseBool] of the Go library: the twelve spellings it
    accepts, an error on everything else. *)
Definition ParseBool (str : string) : option bool :=
  if bool_decide (str ∈ ["1"; "t"; "T"; "TRUE"; "true"; "True"]) then Some true
  else if bool_decide (str ∈ ["0"; "f"; "F"; "FALSE"; "false"; "False"])
       then Some false
       else None.

Definition CompareBoolean (defaultValue : bool) (name current previous : string)
    : bool :=
  let v1 := if negb (bool_decide (previous = ""))
            then match ParseBool previous with
                 | Some b => b
                 | None => defaultValue
                 end
            else defaultValue in
  let v2 := if negb (bool_decide (current = ""))
            then match ParseBool current with
                 | Some b => b
                 | None => defaultValue
                 end
            else defaultValue in
  bool_decide (v1 = v2).

Fixpoint filterRecordsForPlan (records : list loc) (domainFilter : string -> bool)
    (managedRecords : list string) (h : store) : option (list loc) :=
  match records with
  | [] => Some []
  | record :: rest =>
      e ← h !! record;
      filtered ← filterRecordsForPlan rest domainFilter managedRecords h;
      Some (if negb (domainFilter (DNSName e)) then filtered
            else if IsManagedRecord (RecordType e) managedRecords
                 then record :: filtered else filtered)
  end.

Definition emptyRow : planTableRow := {| current := None; candidates := [] |}.

Definition newPlanKey (e : loc) (h : store) (rows : gmap planKey planTableRow)
    : option (planKey * gmap planKey planTableRow) :=
  ep ← h !! e;
  let key := {| dnsName := normalizeDNSName (DNSName ep);
                setIdentifier := SetIdentifier ep;
                recordType := RecordType ep |} in
  Some (key, match rows !! key with
             | Some _ => rows
             | None => <[key := emptyRow]> rows
             end).

Definition addCurrent (h : store) (rows : gmap planKey planTableRow) (e : loc)
    : option (gmap planKey planTableRow) :=
  kr ← newPlanKey e h rows;
  row ← kr.2 !! kr.1;
  Some (<[kr.1 := {| current := Some e; candidates := candidates row |}]> kr.2).

Definition addCandidate (h : store) (rows : gmap planKey planTableRow) (e : loc)
    : option (gmap planKey planTableRow) :=
  kr ← newPlanKey e h rows;
  row ← kr.2 !! kr.1;
  Some (<[kr.1 := {| current := current row;
                     candidates := candidates row ++ [e] |}]> kr.2).

(** A [for _, x := range xs] loop whose body may panic. *)
Fixpoint rangeM {A S : Type} (body : S -> A -> option S) (xs : list A) (s : S)
    : option S :=
  match xs with
  | [] => Some s
  | x :: rest => s' ← body s x; rangeM body rest s'
  end.

Definition targetChanged `{EndpointPkg} (desired current : Endpoint) : bool :=
  negb (Same (Targets desired) (Targets current)).

Definition shouldUpdateTTL `{EndpointPkg} (desired current : Endpoint) : bool :=
  if negb (IsConfigured (RecordTTL desired)) then false
  else negb (bool_decide (RecordTTL desired = RecordTTL current)).

(** The first loop of [shouldUpdateProviderSpecific]: a later property of the
    same name overwrites an earlier one. *)
Definition desiredProperties (ds : list ProviderSpecificProperty)
    : gmap string ProviderSpecificProperty :=
  foldl (fun m d => <[Name d := d]> m) ∅ ds.

(** The second loop, which returns at the first mismatch. *)
Fixpoint providerSpecificLoop (cmp : option propertyComparator)
    (dp : gmap string ProviderSpecificProperty)
    (cs : list ProviderSpecificProperty) : bool :=
  match cs with
  | [] => false
  | c :: rest =>
      match dp !! Name c with
      | Some d =>
          match cmp with
          | Some f =>
              if negb (f (Name c) (Value c) (Value d)) then true
              else providerSpecificLoop cmp dp rest
          | None =>
              if negb (bool_decide (Value c = Value d)) then true
              else providerSpecificLoop cmp dp rest
          end
      | None =>
          match cmp with
          | Some f =>
              if negb (f (Name c) (Value c) "") then true
              else providerSpecificLoop cmp dp rest
          | None =>
              if negb (bool_decide (Value c = "")) then true
              else providerSpecificLoop cmp dp rest
          end
      end
  end.

Definition shouldUpdateProviderSpecific (p : Plan) (desired current : Endpoint) : bool :=
  providerSpecificLoop (PropertyComparator p)
    (desiredProperties (ProviderSpecific desired)) (ProviderSpecific current).

(** [inheritOwner(from, to)] writes through both pointers, one statement
    after the other, so that [from] and [to] may be the same record. *)
Definition inheritOwner `{EndpointPkg} (from to : loc) (h : store) : option store :=
  t ← h !! to;
  let h1 := match Labels t with
            | None => <[to := withLabels t (Some ∅)]> h
            | Some _ => h
            end in
  f ← h1 !! from;
  let h2 := match Labels f with
            | None => <[from := withLabels f (Some ∅)]> h1
            | Some _ => h1
            end in
  f' ← h2 !! from;
  t' ← h2 !! to;
  m ← labelSet (Labels t') OwnerLabelKey (labelGet (Labels f') OwnerLabelKey);
  Some (<[to := withLabels t' m]> h2).

(** Modelled from the spec: [Endpoint.DeepCopy], "a deep copy of current":
    a new record with the fields of the old one, at an address that was not
    in use. *)
Definition DeepCopy (l : loc) (h : store) : option (loc * store) :=
  e ← h !! l;
  Some (length h, h ++ [e]).

Definition slicesContains (s : list string) (v : string) : bool :=
  bool_decide (v ∈ s).

Fixpoint filterOwnedLoop `{EndpointPkg} (ownerIDs : list string) (eps : list loc)
    (h : store) : option (list loc) :=
  match eps with
  | [] => Some []
  | ep :: rest =>
      e ← h !! ep;
      filtered ← filterOwnedLoop ownerIDs rest h;
      Some (match labelLookup (Labels e) OwnerLabelKey with
            | Some endpointOwner =>
                if slicesContains ownerIDs endpointOwner
                then ep :: filtered else filtered
            | None => filtered
            end)
  end.

Definition filterOwnedRecords `{EndpointPkg} (ownerID ownerIDOld : string)
    (migrate : bool) (eps : list loc) (h : store) : option (slice loc) :=
  let ownerIDs := if migrate then [ownerID; ownerIDOld] else [ownerID] in
  filtered ← filterOwnedLoop ownerIDs eps h;
  Some (if (length filtered =? 0)%nat then None else Some filtered).

(** The first statement of [Calculate]: a nil domain filter of the receiver
    is replaced, in the receiver, by the filter that matches everything. *)
Definition defaultDomainFilter (p : Plan) : Plan :=
  match DomainFilter p with
  | None => withDomainFilter p (Some MatchAllDomainFilters)
  | Some _ => p
  end.

Definition startState (h : store) : loopState :=
  {| changes := emptyChanges; hasMig := false; heap := h |}.

Section Calculate.
Context `{EndpointPkg} `{ConflictResolver}.

(** The order in which [range] visits the rows of the table; Go leaves
    it open. *)
Variable rangeRows : gmap planKey planTableRow -> list planTableRow.

(** The condition of the migration branch, with the short circuit of
    [&&]: the current record is read only when the three tests before
    hold. *)
Definition migrationApplies (p : Plan) (row : planTableRow) (h : store)
    : option bool :=
  if TXTOwnerMigrate p then
    match current row with
    | Some c =>
        if (0 <? length (candidates row))%nat then
          cur ← h !! c;
          Some (bool_decide (labelGet (Labels cur) OwnerLabelKey = TXTOwnerOld p))
        else Some false
    | None => Some false
    end
  else Some false.

(** The body of the migration branch. *)
Definition migrateRow (p : Plan) (c : loc) (st : loopState) : option loopState :=
  cp ← DeepCopy c (heap st);
  u ← cp.2 !! cp.1;
  m ← labelSet (Labels u) OwnerLabelKey (TXTOwner p);
  Some {| changes := appendUpdate (changes st) cp.1 c;
          hasMig := true;
          heap := <[cp.1 := withLabels u m]> cp.2 |}.

(** The body of the branch "dns name is taken". *)
Definition updateRow (p : Plan) (c : loc) (cands : list loc) (st : loopState)
    : option loopState :=
  let update := ResolveUpdate (heap st) c cands in
  u ← heap st !! update;
  cur ← heap st !! c;
  if shouldUpdateTTL u cur || targetChanged u cur
     || shouldUpdateProviderSpecific p u cur
  then
    h' ← inheritOwner c update (heap st);
    Some {| changes := appendUpdate (changes st) update c;
            hasMig := hasMig st;
            heap := h' |}
  else Some st.

(** One turn of the loop over the rows. *)
Definition processRow (p : Plan) (st : loopState) (row : planTableRow)
    : option loopState :=
  let st1 :=
    match current row with
    | None =>
        {| changes := appendCreate (changes st)
                        [ResolveCreate (heap st) (candidates row)];
           hasMig := hasMig st; heap := heap st |}
    | Some _ => st
    end in
  let st2 :=
    match current row with
    | Some c =>
        if (length (candidates row) =? 0)%nat
        then {| changes := appendDelete (changes st1) [c];
                hasMig := hasMig st1; heap := heap st1 |}
        else st1
    | None => st1
    end in
  mig ← migrationApplies p row (heap st2);
  if mig : bool then
    match current row with
    | Some c => migrateRow p c st2
    | None => Some st2
    end
  else
    match current row with
    | Some c =>
        if (0 <? length (candidates row))%nat
        then updateRow p c (candidates row) st2
        else Some st2
    | None => Some st2
    end.

(** The table after the two loops that fill it. *)
Definition buildTable (p : Plan) (df : string -> bool) (h : store)
    : option (gmap planKey planTableRow) :=
  cur ← filterRecordsForPlan (Current p) df (ManagedRecords p) h;
  t1 ← rangeM (addCurrent h) cur ∅;
  des ← filterRecordsForPlan (Desired p) df (ManagedRecords p) h;
  rangeM (addCandidate h) des t1.

(** [Calculate]: the receiver after the call, the plan returned, and the
    store after the call. *)
Definition Calculate (p0 : Plan) (h : store) : option (Plan * Plan * store) :=
  let p := defaultDomainFilter p0 in
  df ← DomainFilter p;
  rows ← buildTable p df h;
  st ← rangeM (processRow p) (rangeRows rows) (startState h);
  let ch := foldl (fun c (pol : Policy) => pol c) (changes st) (Policies p) in
  ch' ← (if (0 <? length (Missing p))%nat then
           ms ← filterRecordsForPlan (Missing p) df
                  (ManagedRecords p ++ [RecordTypeTXT]) (heap st);
           Some (appendCreate ch ms)
         else Some ch);
  un ← filterOwnedRecords (TXTOwner p) (TXTOwnerOld p) (TXTOwnerMigrate p)
         (elems (UpdateNew ch')) (heap st);
  uo ← filterOwnedRecords (TXTOwner p) (TXTOwnerOld p) (TXTOwnerMigrate p)
         (elems (UpdateOld ch')) (heap st);
  de ← filterOwnedRecords (TXTOwner p) (TXTOwnerOld p) (TXTOwnerMigrate p)
         (elems (Delete ch')) (heap st);
  Some (p,
        {| Current := Current p;
           Desired := Desired p;
           Missing := [];
           Policies := [];
           PlanChanges := Some {| Create := Create ch'; UpdateOld := uo;
                                  UpdateNew := un; Delete := de |};
           DomainFilter := None;
           PropertyComparator := None;
           ManagedRecords := [RecordTypeA; RecordTypeAAAA; RecordTypeCNAME];
           TXTOwner := "";
           HasMig := hasMig st;
           TXTOwnerMigrate := false;
           TXTOwnerOld := "" |},
        heap st).
End Calculate.

(** ** Notions the properties are stated with *)

(** Grouping key of a record, as [newPlanKey] builds it. *)
Definition keyOf (e : Endpoint) : planKey :=
  {| dnsName := normalizeDNSName (DNSName e);
     setIdentifier := SetIdentifier e;
     recordType := RecordType e |}.


Fixpoint allBytes (P : ascii -> bool) (s : string) : bool :=
  match s with
  | EmptyString => true
  | String a r => P a && allBytes P r
  end.

(** The comparison the provider-specific predicate makes for one property
    of the current record, given the property of that name on the update,
    if there is one. *)
Definition propertyMismatch (cmp : option propertyComparator)
    (c : ProviderSpecificProperty) (d : option ProviderSpecificProperty) : bool :=
  let other := match d with Some d' => Value d' | None => "" end in
  match cmp with
  | Some f => negb (f (Name c) (Value c) other)
  | None => negb (bool_decide (Value c = other))
  end.

(** The property of a given name on a record; of several, the last. *)
Fixpoint lastNamed (n : string) (ds : list ProviderSpecificProperty)
    : option ProviderSpecificProperty :=
  match ds with
  | [] => None
  | d :: rest =>
      match lastNamed n rest with
      | Some x => Some x
      | None => if bool_decide (Name d = n) then Some d else None
      end
  end.

Definition withProperties (e : Endpoint) (ps : list ProviderSpecificProperty)
    : Endpoint :=
  {| DNSName := DNSName e;
     Targets := Targets e;
     RecordType := RecordType e;
     SetIdentifier := SetIdentifier e;
     RecordTTL := RecordTTL e;
     Labels := Labels e;
     ProviderSpecific := ps |}.

(** The loop of [Calculate p0] over the rows, started on store [h0], comes
    to [row] in state [st]. *)
Definition visited `{EndpointPkg} `{ConflictResolver}
    (rangeRows : gmap planKey planTableRow -> list planTableRow)
    (p0 : Plan) (h0 : store) (row : planTableRow) (st : loopState) : Prop :=
  exists df rows before after,
    DomainFilter (defaultDomainFilter p0) = Some df
    /\ buildTable (defaultDomainFilter p0) df h0 = Some rows
    /\ rangeRows rows = before ++ row :: after
    /\ rangeM (processRow (defaultDomainFilter p0)) before (startState h0) = Some st.

(** A string that is empty or starts with a byte that is no white space. *)
Definition noLeadingSpace (s : string) : bool :=
  match s with
  | EmptyString => true
  | String a _ => negb (isSpace a)
  end.

(** The owners whose records the ownership filter lets through. *)
Definition acceptedOwners (p : Plan) : list string :=
  if TXTOwnerMigrate p then [TXTOwner p; TXTOwnerOld p] else [TXTOwner p].

(** A record of the store that carries an owner label with an accepted
    owner. *)
Definition ownedIn `{EndpointPkg} (p : Plan) (h : store) (l : loc) : Prop :=
  exists e o, h !! l = Some e
    /\ labelLookup (Labels e) OwnerLabelKey = Some o
    /\ o ∈ acceptedOwners p.

(** The lists before the ownership filter: what the loop found, passed
    through the policies, with the missing records added to Create. *)
Definition rawChanges `{EndpointPkg} (p : Plan) (df : string -> bool)
    (st : loopState) (raw : Changes) : Prop :=
  let ch := foldl (fun c (pol : Policy) => pol c) (changes st) (Policies p) in
  if (0 <? length (Missing p))%nat then
    exists ms,
      filterRecordsForPlan (Missing p) df
        (ManagedRecords p ++ [RecordTypeTXT]) (heap st) = Some ms
      /\ raw = appendCreate ch ms
  else raw = ch.

(** Two records that differ at most in their labels, the second with a
    label map that is not nil if the first has one. *)
Definition sameButLabels (e e' : Endpoint) : Prop :=
  DNSName e' = DNSName e /\ Targets e' = Targets e
  /\ RecordType e' = RecordType e /\ SetIdentifier e' = SetIdentifier e
  /\ RecordTTL e' = RecordTTL e /\ ProviderSpecific e' = ProviderSpecific e
  /\ (is_Some (Labels e) -> is_Some (Labels e')).

(** Two records with the same label entries; a nil and an empty label map
    have the same entries, none. *)
Definition sameLabelEntries (e e' : Endpoint) : Prop :=
  forall k, labelLookup (Labels e') k = labelLookup (Labels e) k.

(** From [h] to [h'] every record stays where it is and keeps all fields
    but the labels, and keeps its label entries too unless it is one of
    [W]. *)
Definition storeFrame (W : loc -> Prop) (h h' : store) : Prop :=
  forall l e, h !! l = Some e ->
    exists e', h' !! l = Some e' /\ sameButLabels e e'
               /\ (~ W l -> sameLabelEntries e e').

(** The records at [olds] and [news] are, index by index, in the store and
    under the same grouping key. *)
Definition pairedIn (h : store) (olds news : list loc) : Prop :=
  Forall2 (fun o n => exists eo en, h !! o = Some eo /\ h !! n = Some en
                                    /\ keyOf eo = keyOf en) olds news.

(** What holds of every row of the table: it has a current record or a
    candidate; its current record is one of [C], its candidates are among
    [D], and all of them are in the store under the key of the row. *)
Definition rowOk (h : store) (C D : list loc) (k : planKey) (row : planTableRow)
    : Prop :=
  (is_Some (current row) \/ candidates row <> [])
  /\ (forall c, current row = Some c ->
        c ∈ C /\ exists e, h !! c = Some e /\ keyOf e = k)
  /\ (forall x, x ∈ candidates row ->
        x ∈ D /\ exists e, h !! x = Some e /\ keyOf e = k).

Definition tableOk (h : store) (C D : list loc)
    (rows : gmap planKey planTableRow) : Prop :=
  forall k row, rows !! k = Some row -> rowOk h C D k row.

(** The records that the ownership filter reads. *)
Definition filtered (ch : Changes) : list loc :=
  elems (UpdateNew ch) ++ elems (UpdateOld ch) ++ elems (Delete ch).

(** Every record of [ls] is in the store. *)
Definition allIn (h : store) (ls : list loc) : Prop :=
  forall l, l ∈ ls -> is_Some (h !! l).

(** What the loop over the rows keeps true of its state, started on store
    [h0]: the records of [h0] are still there, changed in their labels at
    most; UpdateOld and UpdateNew are paired; the records of Delete are in
    the store. *)
Definition loopOk (h0 : store) (st : loopState) : Prop :=
  storeFrame (fun _ => True) h0 (heap st)
  /\ pairedIn (heap st) (elems (UpdateOld (changes st)))
       (elems (UpdateNew (changes st)))
  /\ allIn (heap st) (elems (Delete (changes st))).

(** Whether the ownership filter keeps the record at [l]. *)
Definition passes `{EndpointPkg} (ids : list string) (h : store) (l : loc) : bool :=
  match h !! l with
  | Some e =>
      match labelLookup (Labels e) OwnerLabelKey with
      | Some o => slicesContains ids o
      | None => false
      end
  | None => false
  end.


(** A policy that hands to the ownership filter only records of the
    store, given only such records. *)
Definition policyOk (pol : Policy) : Prop :=
  forall (h : store) ch, allIn h (filtered ch) -> allIn h (filtered (pol ch)).

(** Whether the record filter keeps the record at [l]: its name matches the
    domain filter and its type is one of the managed ones. *)
Definition relevant (domainFilter : string -> bool) (managedRecords : list string)
    (h : store) (l : loc) : bool :=
  match h !! l with
  | Some e => domainFilter (DNSName e)
              && bool_decide (RecordType e ∈ managedRecords)
  | None => false
  end.

(** The grouping key of the record at [l]. *)
Definition keyAt (h : store) (l : loc) : option planKey := keyOf <$> h !! l.

(** The records of [ls] under grouping key [k], in the order of [ls]. *)
Definition underKey (h : store) (k : planKey) (ls : list loc) : list loc :=
  filter (fun l => keyAt h l = Some k) ls.

(** A string of white space only. *)
Definition isBlank (s : string) : bool := allBytes isSpace s.

(** The truth value that [CompareBoolean] reads off a string. *)
Definition boolValue (defaultValue : bool) (v : string) : bool :=
  default defaultValue (ParseBool v).

(** Where the entries of the four lists come from, in terms of the rows of
    the table: a Create entry is a candidate of a row without current
    record, a Delete entry the current record of a row without candidates,
    an UpdateOld entry the current record of a row with candidates, and an
    UpdateNew entry a candidate of a row with a current record or a record
    that was not in the store of [n0] records at the start. *)
Definition originsOk (rows : gmap planKey planTableRow) (n0 : nat) (ch : Changes)
    : Prop :=
  (forall l, l ∈ elems (Create ch) ->
     exists k row, rows !! k = Some row /\ current row = None
                   /\ l ∈ candidates row)
  /\ (forall l, l ∈ elems (Delete ch) ->
        exists k row, rows !! k = Some row /\ current row = Some l
                      /\ candidates row = [])
  /\ (forall l, l ∈ elems (UpdateOld ch) ->
        exists k row, rows !! k = Some row /\ current row = Some l
                      /\ candidates row <> [])
  /\ (forall l, l ∈ elems (UpdateNew ch) ->
        (exists k row, rows !! k = Some row /\ is_Some (current row)
                       /\ l ∈ candidates row)
        \/ n0 <= l).


(** ** Instances to run the model on *)

(** A stand-in for package [endpoint]: the label key and the record types
    as the project names them, a TTL configured when it is positive, and
    targets compared as sets. *)
Definition sampleEndpoint : EndpointPkg :=
  {| OwnerLabelKey := "owner";
     RecordTypeA := "A";
     RecordTypeAAAA := "AAAA";
     RecordTypeCNAME := "CNAME";
     RecordTypeTXT := "TXT";
     IsConfigured := fun t => (0 <? t)%Z;
     Same := fun a b =>
       bool_decide ((list_to_set a : gset string) = list_to_set b) |}.

(** A resolver that takes the first candidate. *)
Definition firstCandidate : ConflictResolver :=
  {| ResolveCreate := fun _ cs => default O (head cs);
     ResolveUpdate := fun _ _ cs => default O (head cs) |}.

(** One of the orders [range] may take. *)
Definition rangeInKeyOrder (m : gmap planKey planTableRow) : list planTableRow :=
  (map_to_list m).*2.

Definition samplePlan (cur des : list loc) (owner old : string) (mig : bool) : Plan :=
  {| Current := cur; Desired := des; Missing := []; Policies := [];
     PlanChanges := None; DomainFilter := None; PropertyComparator := None;
     ManagedRecords := ["A"; "CNAME"]; TXTOwner := owner; HasMig := false;
     TXTOwnerMigrate := mig; TXTOwnerOld := old |}.

Definition rec (name : string) (targets : list string) (labels : labelMap) : Endpoint :=
  {| DNSName := name; Targets := targets; RecordType := "A";
     SetIdentifier := ""; RecordTTL := 0%Z; Labels := labels;
     ProviderSpecific := [] |}.

Definition ownedBy (o : string) : labelMap := Some {[ "owner" := o ]}.

(** The plan that [Calculate] returns for receiver [p], given the final
    changes and the migration flag. *)
Definition returned (p : Plan) (ch : Changes) (mig : bool) : Plan :=
  {| Current := Current p; Desired := Desired p; Missing := []; Policies := [];
     PlanChanges := Some ch; DomainFilter := None; PropertyComparator := None;
     ManagedRecords := ["A"; "AAAA"; "CNAME"]; TXTOwner := ""; HasMig := mig;
     TXTOwnerMigrate := false; TXTOwnerOld := "" |}.

Definition run (p : Plan) (h : store) : option (Plan * Plan * store) :=
  @Calculate sampleEndpoint firstCandidate rangeInKeyOrder p h.

(** A desired record that nobody owns yet. *)
Definition storeCreate : store := [rec "bar.com." ["190.1.1.1"] None].
Definition planCreate : Plan := samplePlan [] [0] "me" "" false.

(** Two current records, one of another owner, and nothing desired. *)
Definition storeDelete : store :=
  [rec "baz.com." ["1.2.3.4"] (ownedBy "me");
   rec "old.com." ["1.2.3.4"] (ownedBy "you")].
Definition planDelete : Plan := samplePlan [0; 1] [] "me" "" false.

(** A current record without labels whose targets are to change. *)
Definition storeUpdate : store :=
  [rec "foo.com." ["1.1.1.1"] None; rec "foo.com." ["2.2.2.2"] None].
Definition planUpdate (owner : string) : Plan := samplePlan [0] [1] owner "" false.
Definition storeUpdated : store :=
  [rec "foo.com." ["1.1.1.1"] (Some ∅); rec "foo.com." ["2.2.2.2"] (ownedBy "")].

(** Two current records under one name, the first of them desired too. *)
Definition storeShared : store :=
  [rec "foo.com." ["1.1.1.1"] (ownedBy "x");
   rec "foo.com." ["2.2.2.2"] (ownedBy "y")].
Definition planShared : Plan := samplePlan [0; 1] [0] "y" "" false.

(** A record of the old owner, to be migrated. *)
Definition storeMigrate : store :=
  [rec "qux.com." ["1.2.3.4"] (ownedBy "old"); rec "qux.com." ["1.2.3.4"] None].
Definition planMigrate : Plan := samplePlan [0] [1] "new" "old" true.
Definition rowMigrate : planTableRow := {| current := Some 0; candidates := [1] |}.
Definition storeMigrated : store :=
  storeMigrate ++ [rec "qux.com." ["1.2.3.4"] (ownedBy "new")].

(** One record to keep with new targets, one to delete, one to create. *)
Definition storeMixed : store :=
  [rec "keep.com." ["1.1.1.1"] (ownedBy "me");
   rec "gone.com." ["2.2.2.2"] (ownedBy "me");
   rec "new.com." ["3.3.3.3"] None;
   rec "keep.com." ["9.9.9.9"] None].
Definition planMixed : Plan := samplePlan [0; 1] [2; 3] "me" "" false.
Definition changesMixed : Changes :=
  {| Create := Some [2]; UpdateOld := Some [0]; UpdateNew := Some [3];
     Delete := Some [1] |}.
Definition storeMixedAfter : store :=
  [rec "keep.com." ["1.1.1.1"] (ownedBy "me");
   rec "gone.com." ["2.2.2.2"] (ownedBy "me");
   rec "new.com." ["3.3.3.3"] None;
   rec "keep.com." ["9.9.9.9"] (ownedBy "me")].
Definition keyFor (name : string) : planKey :=
  {| dnsName := name; setIdentifier := ""; recordType := "A" |}.

(** A desired record, and two missing ones: a TXT record and an MX record. *)
Definition storeMissing : store :=
  [rec "bar.com." ["190.1.1.1"] None;
   {| DNSName := "bar.com."; Targets := ["heritage=external-dns"];
      RecordType := "TXT"; SetIdentifier := ""; RecordTTL := 0%Z;
      Labels := None; ProviderSpecific := [] |};
   {| DNSName := "bar.com."; Targets := ["10 mail.bar.com."];
      RecordType := "MX"; SetIdentifier := ""; RecordTTL := 0%Z;
      Labels := None; ProviderSpecific := [] |}].
Definition planMissing : Plan :=
  {| Current := []; Desired := [0]; Missing := [1; 2]; Policies := [];
     PlanChanges := None; DomainFilter := None; PropertyComparator := None;
     ManagedRecords := ["A"; "CNAME"]; TXTOwner := "me"; HasMig := false;
     TXTOwnerMigrate := false; TXTOwnerOld := "" |}.


Definition runChanges (p : Plan) (h : store) : option (Changes * bool) :=
  r ← @Calculate sampleEndpoint firstCandidate rangeInKeyOrder p h;
  c ← PlanChanges r.1.2;
  Some (c, HasMig r.1.2).

(** * Properties *)

(** ** Strings *)

Lemma toLowerByte_not_upper (a : ascii) : isUpper (toLowerByte a) = false.
Proof.
  unfold toLowerByte. destruct (isUpper a) eqn:E; [|exact E].
  unfold isUpper in *. cbv zeta in *.
  apply andb_true_iff in E as [E1 E2].
  apply Nat.leb_le in E1, E2.
  rewrite nat_ascii_embedding by lia.
  apply andb_false_iff. right. apply Nat.leb_gt. lia.
Qed.

Lemma ToLower_no_upper (s : string) :
  allBytes (fun a => negb (isUpper a)) (ToLower s) = true.
Proof.
  induction s as [|a r IH]; simpl; [done|].
  by rewrite toLowerByte_not_upper, IH.
Qed.

Lemma allBytes_trimLeft P s : allBytes P s = true -> allBytes P (trimLeft s) = true.
Proof.
  induction s as [|a r IH]; simpl; [done|].
  intros Hs. destruct (isSpace a); [|exact Hs].
  apply andb_true_iff in Hs as [_ Hs]. auto.
Qed.

Lemma allBytes_trimRight P s : allBytes P s = true -> allBytes P (trimRight s) = true.
Proof.
  induction s as [|a r IH]; simpl; [done|].
  intros Hs. apply andb_true_iff in Hs as [Ha Hr].
  specialize (IH Hr).
  destruct (trimRight r) eqn:E.
  - destruct (isSpace a); simpl; [done|]. by rewrite Ha.
  - simpl in *. by rewrite Ha, IH.
Qed.

Lemma allBytes_app P s t :
  allBytes P (s +:+ t) = allBytes P s && allBytes P t.
Proof.
  induction s as [|a r IH]; simpl; [done|]. by rewrite IH, andb_assoc.
Qed.

Lemma length_string_app s t :
  String.length (s +:+ t) = (String.length s + String.length t)%nat.
Proof. induction s as [|a r IH]; simpl; [done|]. by rewrite IH. Qed.

Lemma dropBytes_app s t : dropBytes (String.length s) (s +:+ t) = t.
Proof. induction s as [|a r IH]; simpl; [by destruct t|]. exact IH. Qed.

Lemma HasSuffix_app s t : HasSuffix (s +:+ t) t = true.
Proof.
  unfold HasSuffix. rewrite length_string_app.
  apply andb_true_iff. split; [apply Nat.leb_le; lia|].
  apply bool_decide_eq_true.
  replace (String.length s + String.length t - String.length t)%nat
    with (String.length s) by lia.
  apply dropBytes_app.
Qed.

Lemma trimRight_keeps_head a r :
  isSpace a = false -> trimRight (String a r) = String a (trimRight r).
Proof. intros Ha. simpl. rewrite Ha. by destruct (trimRight r). Qed.

Lemma trimRight_cons_step a r b r' :
  trimRight r = String b r' -> trimRight (String a r) = String a (String b r').
Proof. intros E. simpl. by rewrite E. Qed.

Lemma trimRight_idemp s : trimRight (trimRight s) = trimRight s.
Proof.
  induction s as [|a r IH]; [done|].
  destruct (trimRight r) as [|b r'] eqn:E.
  - simpl. rewrite E. destruct (isSpace a) eqn:Ha; simpl; [done|]. by rewrite Ha.
  - rewrite (trimRight_cons_step a r b r' E).
    by apply trimRight_cons_step.
Qed.

Lemma trimRight_snoc s a :
  isSpace a = false ->
  trimRight s = s -> trimRight (s +:+ String a EmptyString) = s +:+ String a EmptyString.
Proof.
  intros Ha. induction s as [|b r IH]; simpl.
  - by rewrite Ha.
  - intros Hs. destruct (trimRight r) eqn:E.
    + destruct (isSpace b) eqn:Hb; [discriminate Hs|].
      injection Hs as <-. simpl. by rewrite Ha.
    + injection Hs as Hs. rewrite IH by done.
      destruct r; simpl; [discriminate Hs|done].
Qed.

Lemma trimLeft_noLeadingSpace s : noLeadingSpace (trimLeft s) = true.
Proof.
  induction s as [|a r IH]; simpl; [done|].
  destruct (isSpace a) eqn:Ha; [done|]. simpl. by rewrite Ha.
Qed.

Lemma trimLeft_fixed s : noLeadingSpace s = true -> trimLeft s = s.
Proof.
  destruct s as [|a r]; simpl; [done|].
  intros Ha. apply negb_true_iff in Ha. by rewrite Ha.
Qed.

Lemma trimRight_noLeadingSpace s :
  noLeadingSpace s = true -> noLeadingSpace (trimRight s) = true.
Proof.
  destruct s as [|a r]; [done|]. intros Ha. simpl in Ha.
  apply negb_true_iff in Ha. rewrite trimRight_keeps_head by done.
  simpl. by rewrite Ha.
Qed.

Lemma TrimSpace_shape s :
  noLeadingSpace (TrimSpace s) = true /\ trimRight (TrimSpace s) = TrimSpace s.
Proof.
  unfold TrimSpace. split.
  - apply trimRight_noLeadingSpace, trimLeft_noLeadingSpace.
  - apply trimRight_idemp.
Qed.

Lemma TrimSpace_fixed s :
  noLeadingSpace s = true -> trimRight s = s -> TrimSpace s = s.
Proof. intros H1 H2. unfold TrimSpace. by rewrite trimLeft_fixed. Qed.

Lemma noLeadingSpace_snoc s a :
  isSpace a = false -> noLeadingSpace s = true ->
  noLeadingSpace (s +:+ String a EmptyString) = true.
Proof. intros Ha. destruct s; simpl; [by rewrite Ha|done]. Qed.

Example normalize_mixed_case : normalizeDNSName "  Foo.COM " = "foo.com.".
Proof. reflexivity. Qed.

Example normalize_dotted : normalizeDNSName "foo.com." = "foo.com.".
Proof. reflexivity. Qed.




(** ** The predicates of the change detector *)

(** C6: the TTL predicate fires exactly when the update's TTL is configured
    and is another number than the current one; with an unconfigured TTL on
    the update it does not fire, whatever the current TTL is. *)
Theorem shouldUpdateTTL_iff `{EndpointPkg} (update cur : Endpoint) :
  (shouldUpdateTTL update cur = true
   <-> IsConfigured (RecordTTL update) = true /\ RecordTTL update <> RecordTTL cur)
  /\ (IsConfigured (RecordTTL update) = false -> shouldUpdateTTL update cur = false).
Proof.
  unfold shouldUpdateTTL.
  destruct (IsConfigured (RecordTTL update)) eqn:E; simpl.
  - split; [|discriminate].
    rewrite negb_true_iff, bool_decide_eq_false.
    split; [intros Hne; by split|intros [_ Hne]; exact Hne].
  - split; [|done]. split; [discriminate|]. intros [? _]. discriminate.
Qed.

Lemma shouldUpdateTTL_iff_witness :
  @IsConfigured sampleEndpoint 0%Z = false
  /\ @shouldUpdateTTL sampleEndpoint
       (rec "a" [] None) (mkEndpoint "a" [] "A" "" 300%Z None []) = false.
Proof.
  split; [reflexivity|].
  apply (@shouldUpdateTTL_iff sampleEndpoint). reflexivity.
Defined.

Lemma desiredProperties_fold (n : string) (ds : list ProviderSpecificProperty)
    (m : gmap string ProviderSpecificProperty) :
  foldl (fun m d => <[Name d := d]> m) m ds !! n
  = match lastNamed n ds with Some d => Some d | None => m !! n end.
Proof.
  revert m. induction ds as [|d rest IH]; intros m; simpl; [done|].
  rewrite IH. destruct (lastNamed n rest); [done|].
  case_bool_decide as Hn.
  - subst n. by rewrite lookup_insert_eq.
  - by rewrite lookup_insert_ne.
Qed.

Lemma desiredProperties_lookup (n : string) (ds : list ProviderSpecificProperty) :
  desiredProperties ds !! n = lastNamed n ds.
Proof.
  unfold desiredProperties. rewrite desiredProperties_fold.
  by destruct (lastNamed n ds).
Qed.

Lemma lastNamed_name n ds d : lastNamed n ds = Some d -> Name d = n /\ d ∈ ds.
Proof.
  induction ds as [|x rest IH]; simpl; [done|].
  destruct (lastNamed n rest) eqn:E.
  - intros [= <-]. destruct (IH eq_refl). split; [done|]. by right.
  - case_bool_decide; [|done]. intros [= <-]. split; [done|]. by left.
Qed.

Lemma providerSpecificLoop_step cmp dp c rest :
  providerSpecificLoop cmp dp (c :: rest)
  = propertyMismatch cmp c (dp !! Name c) || providerSpecificLoop cmp dp rest.
Proof.
  simpl. unfold propertyMismatch.
  destruct (dp !! Name c), cmp; simpl;
    match goal with |- context [negb ?b] => by destruct b end.
Qed.

Lemma providerSpecificLoop_exists cmp dp cs :
  providerSpecificLoop cmp dp cs = true
  <-> exists c, c ∈ cs /\ propertyMismatch cmp c (dp !! Name c) = true.
Proof.
  induction cs as [|c rest IH].
  - simpl. split; [done|]. intros (c & Hc & _). by apply elem_of_nil in Hc.
  - rewrite providerSpecificLoop_step, orb_true_iff, IH. split.
    + intros [Hm|(x & Hx & Hm)].
      * exists c. split; [by left|done].
      * exists x. split; [by right|done].
    + intros (x & Hx & Hm). apply elem_of_cons in Hx as [->|Hx]; [by left|].
      right. by exists x.
Qed.

Lemma lastNamed_other n d ds :
  Name d <> n -> lastNamed n (d :: ds) = lastNamed n ds.
Proof.
  intros Hn. simpl. destruct (lastNamed n ds); [done|].
  by rewrite bool_decide_eq_false_2.
Qed.

Lemma providerSpecificLoop_ext cmp dp dp' cs :
  (forall c, c ∈ cs -> dp !! Name c = dp' !! Name c) ->
  providerSpecificLoop cmp dp cs = providerSpecificLoop cmp dp' cs.
Proof.
  induction cs as [|c rest IH]; intros Hagree; [done|].
  rewrite !providerSpecificLoop_step.
  rewrite (Hagree c) by (by left).
  rewrite IH; [done|]. intros x Hx. apply Hagree. by right.
Qed.

(** C7: the provider-specific predicate fires exactly when some property of
    the current record mismatches, where a property is compared with the
    update's property of the same name, or with the empty string when the
    update has none, through the comparator when the plan has one and by
    inequality otherwise.  A property that only the update has does not
    change the outcome. *)
Theorem shouldUpdateProviderSpecific_iff (p : Plan) (update cur : Endpoint) :
  (shouldUpdateProviderSpecific p update cur = true
   <-> exists c, c ∈ ProviderSpecific cur
         /\ propertyMismatch (PropertyComparator p) c
              (lastNamed (Name c) (ProviderSpecific update)) = true)
  /\ (forall extra,
        (forall c, c ∈ ProviderSpecific cur -> Name c <> Name extra) ->
        shouldUpdateProviderSpecific p
          (withProperties update (extra :: ProviderSpecific update)) cur
        = shouldUpdateProviderSpecific p update cur).
Proof.
  unfold shouldUpdateProviderSpecific. split.
  - rewrite providerSpecificLoop_exists.
    split; intros (c & Hc & Hm); exists c; split; try done.
    + by rewrite <- desiredProperties_lookup.
    + by rewrite desiredProperties_lookup.
  - intros extra Hextra. simpl. apply providerSpecificLoop_ext.
    intros c Hc. rewrite !desiredProperties_lookup.
    apply lastNamed_other. intros Heq. by apply (Hextra c Hc).
Qed.

Lemma shouldUpdateProviderSpecific_iff_witness :
  let p := samplePlan [] [] "me" "" false in
  let cur := withProperties (rec "a" [] None) [mkProperty "proxied" "true"] in
  let update := rec "a" [] None in
  shouldUpdateProviderSpecific p update cur = true
  /\ shouldUpdateProviderSpecific p
       (withProperties cur [mkProperty "weight" "10"; mkProperty "proxied" "true"])
       cur = false.
Proof.
  intros p cur update. split.
  - apply (proj1 (shouldUpdateProviderSpecific_iff p update cur)).
    exists (mkProperty "proxied" "true"). split; [by left|reflexivity].
  - refine (eq_trans (proj2 (shouldUpdateProviderSpecific_iff p cur cur)
                        (mkProperty "weight" "10") _) _).
    + intros c Hc. apply list_elem_of_singleton in Hc as ->. discriminate.
    + reflexivity.
Defined.

(** ** Loops *)

Lemma rangeM_inv {A S : Type} (body : S -> A -> option S) (P : S -> Prop)
    (xs : list A) :
  (forall s x s', x ∈ xs -> P s -> body s x = Some s' -> P s') ->
  forall s s', P s -> rangeM body xs s = Some s' -> P s'.
Proof.
  induction xs as [|x rest IH]; intros Hstep s s' Hs; simpl.
  - by intros [= <-].
  - destruct (body s x) as [s1|] eqn:E; simpl; [|done].
    apply IH.
    + intros s2 y s3 Hy. apply Hstep. by right.
    + apply (Hstep s x s1); [by left|done|done].
Qed.

Lemma rangeM_app {A S : Type} (body : S -> A -> option S) (xs ys : list A) (s : S) :
  rangeM body (xs ++ ys) s = (s1 ← rangeM body xs s; rangeM body ys s1).
Proof.
  revert s. induction xs as [|x rest IH]; intros s; simpl; [done|].
  destruct (body s x); simpl; [apply IH|done].
Qed.

(** ** The grouping table *)

Lemma filterRecordsForPlan_subset records df managed h out :
  filterRecordsForPlan records df managed h = Some out ->
  forall x, x ∈ out -> x ∈ records /\ is_Some (h !! x).
Proof.
  revert out. induction records as [|r rest IH]; intros out; simpl.
  - intros [= <-] x Hx. by apply elem_of_nil in Hx.
  - destruct (h !! r) as [e|] eqn:Er; simpl; [|done].
    destruct (filterRecordsForPlan rest df managed h) as [f|]; simpl; [|done].
    intros [= <-] x Hx.
    assert (Hrest : forall y, y ∈ f -> y ∈ r :: rest /\ is_Some (h !! y)).
    { intros y Hy. destruct (IH f eq_refl y Hy). split; [by right|done]. }
    destruct (negb (df (DNSName e))); [by apply Hrest|].
    destruct (IsManagedRecord (RecordType e) managed); [|by apply Hrest].
    apply elem_of_cons in Hx as [->|Hx]; [|by apply Hrest].
    split; [by left|by rewrite Er].
Qed.

Lemma newPlanKey_spec e h (rows : gmap planKey planTableRow) key rows1 :
  newPlanKey e h rows = Some (key, rows1) ->
  exists ep row,
    h !! e = Some ep /\ key = keyOf ep
    /\ rows1 !! key = Some row
    /\ (rows !! key = Some row \/ row = emptyRow)
    /\ (forall k, k <> key -> rows1 !! k = rows !! k).
Proof.
  unfold newPlanKey. destruct (h !! e) as [ep|]; simpl; [|done].
  fold (keyOf ep). intros [= <- <-].
  destruct (rows !! keyOf ep) as [row|] eqn:E.
  - exists ep, row. repeat split; try done. by left.
  - exists ep, emptyRow. repeat split; try done.
    + by rewrite lookup_insert_eq.
    + by right.
    + intros k Hk. by rewrite lookup_insert_ne.
Qed.

Lemma tableOk_empty h C D : tableOk h C D ∅.
Proof. intros k row Hk. by rewrite lookup_empty in Hk. Qed.

Lemma addCurrent_ok h C D rows e rows' :
  e ∈ C -> tableOk h C D rows -> addCurrent h rows e = Some rows' ->
  tableOk h C D rows'.
Proof.
  intros He Hok. unfold addCurrent.
  destruct (newPlanKey e h rows) as [[key rows1]|] eqn:Ek; simpl; [|done].
  apply newPlanKey_spec in Ek as (ep & row & Hep & -> & Hrow & Horig & Hother).
  rewrite Hrow. simpl. intros [= <-] k r.
  destruct (decide (k = keyOf ep)) as [->|Hne].
  - rewrite lookup_insert_eq. intros [= <-]. split; [left; by eexists|]. split.
    + simpl. intros c [= <-]. split; [done|]. by exists ep.
    + simpl. destruct Horig as [Horig| ->]; [|intros x Hx; by apply elem_of_nil in Hx].
      apply (Hok _ _ Horig).
  - rewrite lookup_insert_ne by done. rewrite Hother by done. apply Hok.
Qed.

Lemma addCandidate_ok h C D rows e rows' :
  e ∈ D -> tableOk h C D rows -> addCandidate h rows e = Some rows' ->
  tableOk h C D rows'.
Proof.
  intros He Hok. unfold addCandidate.
  destruct (newPlanKey e h rows) as [[key rows1]|] eqn:Ek; simpl; [|done].
  apply newPlanKey_spec in Ek as (ep & row & Hep & -> & Hrow & Horig & Hother).
  rewrite Hrow. simpl. intros [= <-] k r.
  destruct (decide (k = keyOf ep)) as [->|Hne].
  - rewrite lookup_insert_eq. intros [= <-]. split; [|split]; simpl.
    + right. by destruct (candidates row).
    + destruct Horig as [Horig| ->]; [|done]. apply (Hok _ _ Horig).
    + intros x Hx. apply elem_of_app in Hx as [Hx|Hx].
      * destruct Horig as [Horig| ->]; [|by apply elem_of_nil in Hx].
        by apply (Hok _ _ Horig).
      * apply list_elem_of_singleton in Hx as ->. split; [done|]. by exists ep.
  - rewrite lookup_insert_ne by done. rewrite Hother by done. apply Hok.
Qed.

Lemma buildTable_ok p df h rows :
  buildTable p df h = Some rows -> tableOk h (Current p) (Desired p) rows.
Proof.
  unfold buildTable.
  destruct (filterRecordsForPlan (Current p) df (ManagedRecords p) h)
    as [cur|] eqn:Ecur; simpl; [|done].
  destruct (rangeM (addCurrent h) cur ∅) as [t1|] eqn:Et1; simpl; [|done].
  destruct (filterRecordsForPlan (Desired p) df (ManagedRecords p) h)
    as [des|] eqn:Edes; simpl; [|done].
  intros Et2.
  assert (Hok1 : tableOk h (Current p) (Desired p) t1).
  { eapply (rangeM_inv (addCurrent h) (tableOk h (Current p) (Desired p)) cur);
      [|apply tableOk_empty|exact Et1].
    intros s x s' Hx Hs. apply addCurrent_ok; [|done].
    by apply (filterRecordsForPlan_subset _ _ _ _ _ Ecur). }
  eapply (rangeM_inv (addCandidate h) (tableOk h (Current p) (Desired p)) des);
    [|exact Hok1|exact Et2].
  intros s x s' Hx Hs. apply addCandidate_ok; [|done].
  by apply (filterRecordsForPlan_subset _ _ _ _ _ Edes).
Qed.

Lemma addCurrent_dom (h : store) rows e rows' :
  addCurrent h rows e = Some rows' ->
  exists ep, h !! e = Some ep
    /\ forall k, is_Some (rows' !! k) <-> is_Some (rows !! k) \/ k = keyOf ep.
Proof.
  unfold addCurrent.
  destruct (newPlanKey e h rows) as [[key rows1]|] eqn:Ek; simpl; [|done].
  apply newPlanKey_spec in Ek as (ep & row & Hep & -> & Hrow & Horig & Hother).
  rewrite Hrow. simpl. intros [= <-]. exists ep. split; [done|]. intros k.
  destruct (decide (k = keyOf ep)) as [->|Hne].
  - rewrite lookup_insert_eq. split; [by right|by eexists].
  - rewrite lookup_insert_ne, Hother by done. split; [by left|by intros [?|?]].
Qed.

Lemma addCandidate_dom (h : store) rows e rows' :
  addCandidate h rows e = Some rows' ->
  exists ep, h !! e = Some ep
    /\ forall k, is_Some (rows' !! k) <-> is_Some (rows !! k) \/ k = keyOf ep.
Proof.
  unfold addCandidate.
  destruct (newPlanKey e h rows) as [[key rows1]|] eqn:Ek; simpl; [|done].
  apply newPlanKey_spec in Ek as (ep & row & Hep & -> & Hrow & Horig & Hother).
  rewrite Hrow. simpl. intros [= <-]. exists ep. split; [done|]. intros k.
  destruct (decide (k = keyOf ep)) as [->|Hne].
  - rewrite lookup_insert_eq. split; [by right|by eexists].
  - rewrite lookup_insert_ne, Hother by done. split; [by left|by intros [?|?]].
Qed.

Lemma rangeM_dom (add : gmap planKey planTableRow -> loc ->
                        option (gmap planKey planTableRow)) (h : store) xs :
  (forall rows e rows', add rows e = Some rows' ->
     exists ep, h !! e = Some ep
       /\ forall k, is_Some (rows' !! k) <-> is_Some (rows !! k) \/ k = keyOf ep) ->
  forall rows rows',
    rangeM add xs rows = Some rows' ->
    forall k, is_Some (rows' !! k)
              <-> is_Some (rows !! k)
                  \/ exists l e, l ∈ xs /\ h !! l = Some e /\ keyOf e = k.
Proof.
  intros Hadd. induction xs as [|x rest IH]; intros rows rows'; simpl.
  - intros [= <-] k. split; [by left|]. intros [?|(l & e & Hl & _)]; [done|].
    by apply elem_of_nil in Hl.
  - destruct (add rows x) as [r1|] eqn:E1; simpl; [|done].
    intros Hrest k. rewrite (IH _ _ Hrest k).
    destruct (Hadd _ _ _ E1) as (ep & Hep & Hdom). rewrite (Hdom k). split.
    + intros [[?|Hk]|(l & e & Hl & He & Hk)].
      * by left.
      * right. exists x, ep. split; [by left|done].
      * right. exists l, e. split; [by right|done].
    + intros [?|(l & e & Hl & He & Hk)]; [by left; left|].
      apply elem_of_cons in Hl as [->|Hl].
      * left. right. rewrite Hep in He. injection He as <-. done.
      * right. by exists l, e.
Qed.

(** The table has a row for exactly the grouping keys of the current and
    desired records that pass the record filter. *)
Lemma buildTable_dom p df (h : store) rows cur des :
  filterRecordsForPlan (Current p) df (ManagedRecords p) h = Some cur ->
  filterRecordsForPlan (Desired p) df (ManagedRecords p) h = Some des ->
  buildTable p df h = Some rows ->
  forall k, is_Some (rows !! k)
            <-> exists l e, l ∈ cur ++ des /\ h !! l = Some e /\ keyOf e = k.
Proof.
  intros Hcur Hdes. unfold buildTable. rewrite Hcur. simpl.
  destruct (rangeM (addCurrent h) cur ∅) as [t1|] eqn:Et1; simpl; [|done].
  rewrite Hdes. simpl. intros Et2 k.
  rewrite (rangeM_dom (addCandidate h) h des (addCandidate_dom h) _ _ Et2 k).
  rewrite (rangeM_dom (addCurrent h) h cur (addCurrent_dom h) _ _ Et1 k).
  rewrite lookup_empty. split.
  - intros [[[? ?]|(l & e & Hl & He)]|(l & e & Hl & He)]; [done| |].
    + exists l, e. split; [|done]. apply elem_of_app. by left.
    + exists l, e. split; [|done]. apply elem_of_app. by right.
  - intros (l & e & Hl & He). apply elem_of_app in Hl as [Hl|Hl].
    + left. right. by exists l, e.
    + right. by exists l, e.
Qed.

(** ** One row of the change detector *)

Lemma elems_append {A} (s : slice A) (xs : list A) :
  elems (append s xs) = elems s ++ xs.
Proof. destruct s as [l|], xs; simpl; done. Qed.

Lemma inheritOwner_returns `{EndpointPkg} from to (h : store) :
  is_Some (h !! from) -> is_Some (h !! to) -> is_Some (inheritOwner from to h).
Proof.
  intros [f Hf] [t Ht]. unfold inheritOwner. rewrite Ht. simpl.
  set (h1 := match Labels t with
             | None => <[to := withLabels t (Some ∅)]> h
             | Some _ => h
             end).
  assert (Hto1 : exists t1, h1 !! to = Some t1 /\ is_Some (Labels t1)).
  { subst h1. destruct (Labels t) eqn:El.
    - exists t. split; [done|]. rewrite El. by eexists.
    - exists (withLabels t (Some ∅)). split; [|by eexists].
      apply list_lookup_insert_eq. by eapply lookup_lt_Some. }
  assert (Hfrom1 : is_Some (h1 !! from)).
  { apply lookup_lt_is_Some. subst h1.
    destruct (Labels t); [|rewrite length_insert]; by eapply lookup_lt_Some. }
  destruct Hfrom1 as [f1 Hf1]. rewrite Hf1. simpl.
  set (h2 := match Labels f1 with
             | None => <[from := withLabels f1 (Some ∅)]> h1
             | Some _ => h1
             end).
  destruct Hto1 as (t1 & Ht1 & Hl1).
  assert (Hto2 : exists t2, h2 !! to = Some t2 /\ is_Some (Labels t2)).
  { subst h2. destruct (Labels f1) eqn:El; [by exists t1|].
    destruct (decide (from = to)) as [->|Hne].
    - rewrite Ht1 in Hf1. injection Hf1 as ->. rewrite El in Hl1.
      by destruct Hl1.
    - exists t1. by rewrite list_lookup_insert_ne. }
  assert (Hfrom2 : is_Some (h2 !! from)).
  { apply lookup_lt_is_Some. subst h2.
    destruct (Labels f1); [|rewrite length_insert]; by eapply lookup_lt_Some. }
  destruct Hfrom2 as [f2 Hf2]. rewrite Hf2. simpl.
  destruct Hto2 as (t2 & Ht2 & [m Hm]). rewrite Ht2. simpl. rewrite Hm. simpl.
  by eexists.
Qed.

Section Rows.
Context `{EndpointPkg} `{ConflictResolver}.

Lemma processRow_create p st row :
  current row = None ->
  processRow p st row
  = Some {| changes := appendCreate (changes st)
                         [ResolveCreate (heap st) (candidates row)];
            hasMig := hasMig st; heap := heap st |}.
Proof.
  intros Hc. unfold processRow, migrationApplies. rewrite Hc.
  by destruct (TXTOwnerMigrate p).
Qed.

Lemma processRow_delete p st row c :
  current row = Some c -> candidates row = [] ->
  processRow p st row
  = Some {| changes := appendDelete (changes st) [c];
            hasMig := hasMig st; heap := heap st |}.
Proof.
  intros Hc Hn. unfold processRow, migrationApplies. rewrite Hc, Hn. simpl.
  by destruct (TXTOwnerMigrate p).
Qed.

Lemma processRow_taken p st row c :
  current row = Some c -> candidates row <> [] ->
  processRow p st row
  = (mig ← migrationApplies p row (heap st);
     if mig : bool then migrateRow p c st
     else updateRow p c (candidates row) st).
Proof.
  intros Hc Hn. unfold processRow. rewrite Hc.
  destruct (candidates row) as [|x xs] eqn:E; [done|]. simpl.
  by destruct (migrationApplies p _ (heap st)) as [[]|].
Qed.

Lemma migrateRow_spec p c st cur m :
  heap st !! c = Some cur -> Labels cur = Some m ->
  migrateRow p c st
  = Some {| changes := appendUpdate (changes st) (length (heap st)) c;
            hasMig := true;
            heap := heap st
                    ++ [withLabels cur (Some (<[OwnerLabelKey := TXTOwner p]> m))] |}.
Proof.
  intros Hc Hm. unfold migrateRow, DeepCopy. rewrite Hc. simpl.
  rewrite list_lookup_middle by done. simpl. rewrite Hm. simpl.
  rewrite insert_app_r_alt by done. by rewrite Nat.sub_diag.
Qed.

Lemma migrateRow_changes p c st st' :
  migrateRow p c st = Some st' ->
  changes st' = appendUpdate (changes st) (length (heap st)) c
  /\ hasMig st' = true.
Proof.
  unfold migrateRow, DeepCopy. destruct (heap st !! c) as [cur|]; simpl; [|done].
  destruct ((heap st ++ [cur]) !! length (heap st)) as [u|]; simpl; [|done].
  destruct (labelSet (Labels u) OwnerLabelKey (TXTOwner p)); simpl; [|done].
  by intros [= <-].
Qed.

Lemma updateRow_changes p c cands st st' :
  updateRow p c cands st = Some st' ->
  hasMig st' = hasMig st
  /\ (changes st' = changes st
      \/ changes st' = appendUpdate (changes st) (ResolveUpdate (heap st) c cands) c).
Proof.
  unfold updateRow.
  destruct (heap st !! ResolveUpdate (heap st) c cands) as [u|]; simpl; [|done].
  destruct (heap st !! c) as [cur|]; simpl; [|done].
  destruct (shouldUpdateTTL u cur || targetChanged u cur
            || shouldUpdateProviderSpecific p u cur).
  - destruct (inheritOwner c _ (heap st)); simpl; [|done].
    intros [= <-]. split; [done|]. by right.
  - intros [= <-]. split; [done|]. by left.
Qed.

Lemma processRow_shape p st row st' :
  processRow p st row = Some st' ->
  (current row = None
   /\ changes st' = appendCreate (changes st)
                      [ResolveCreate (heap st) (candidates row)])
  \/ (exists c, current row = Some c /\ candidates row = []
                /\ changes st' = appendDelete (changes st) [c])
  \/ (exists c, current row = Some c /\ candidates row <> []
                /\ (changes st' = changes st
                    \/ exists u, changes st' = appendUpdate (changes st) u c)).
Proof.
  destruct (current row) as [c|] eqn:Hc.
  - destruct (candidates row) as [|x xs] eqn:Hn.
    + rewrite (processRow_delete p st row c Hc Hn). intros [= <-].
      right. left. by exists c.
    + assert (Hne : candidates row <> []) by (by rewrite Hn).
      rewrite (processRow_taken p st row c Hc Hne), Hn.
      destruct (migrationApplies p row (heap st)) as [[]|]; simpl; [| |done].
      * intros Hm. apply migrateRow_changes in Hm as [Hm _].
        right. right. exists c. repeat split; try done. right. by eexists.
      * intros Hu. apply updateRow_changes in Hu as [_ Hu].
        right. right. exists c. repeat split; try done.
        destruct Hu as [Hu|Hu]; [by left|right; by eexists].
  - rewrite (processRow_create p st row Hc). intros [= <-]. by left.
Qed.

(** A turn of the loop returns when the records it reads are in the
    store and the label map it writes to in the migration branch is not
    nil. *)
Lemma processRow_returns p st row :
  (forall c, current row = Some c -> candidates row <> [] ->
     exists cur, heap st !! c = Some cur
       /\ is_Some (heap st !! ResolveUpdate (heap st) c (candidates row))
       /\ (TXTOwnerMigrate p = true ->
           labelGet (Labels cur) OwnerLabelKey = TXTOwnerOld p ->
           is_Some (Labels cur))) ->
  is_Some (processRow p st row).
Proof.
  intros Hok. destruct (current row) as [c|] eqn:Hc.
  - destruct (candidates row) as [|x xs] eqn:Hn.
    + rewrite (processRow_delete p st row c Hc Hn). by eexists.
    + assert (Hne : candidates row <> []) by (by rewrite Hn).
      rewrite (processRow_taken p st row c Hc Hne).
      destruct (Hok c eq_refl) as (cur & Hcur & [u Hu] & Hlab); [done|].
      unfold migrationApplies. rewrite Hc, Hn. simpl.
      assert (Hupd : is_Some (updateRow p c (x :: xs) st)).
      { unfold updateRow. rewrite Hu, Hcur. simpl.
        destruct (shouldUpdateTTL u cur || targetChanged u cur
                  || shouldUpdateProviderSpecific p u cur); [|by eexists].
        destruct (inheritOwner_returns c (ResolveUpdate (heap st) c (x :: xs))
                    (heap st)) as [h' Hh']; [by eexists|by eexists|].
        rewrite Hh'. simpl. by eexists. }
      destruct (TXTOwnerMigrate p) eqn:Hmig; [|exact Hupd].
      rewrite Hcur. simpl. case_bool_decide as Hold; [|exact Hupd].
      destruct (Hlab eq_refl Hold) as [m Hm].
      rewrite (migrateRow_spec p c st cur m Hcur Hm). by eexists.
  - rewrite (processRow_create p st row Hc). by eexists.
Qed.


(** The migration branch, on a row with a current record whose label map
    is not nil: the state it leaves, written out. *)
Lemma migration_turn p st row c cur m :
  current row = Some c -> candidates row <> [] ->
  TXTOwnerMigrate p = true ->
  heap st !! c = Some cur -> Labels cur = Some m ->
  labelGet (Labels cur) OwnerLabelKey = TXTOwnerOld p ->
  let new := length (heap st) in
  let copy := withLabels cur (Some (<[OwnerLabelKey := TXTOwner p]> m)) in
  let st' := {| changes := appendUpdate (changes st) new c;
                hasMig := true;
                heap := heap st ++ [copy] |} in
  processRow p st row = Some st'
  /\ elems (UpdateNew (changes st')) = elems (UpdateNew (changes st)) ++ [new]
  /\ elems (UpdateOld (changes st')) = elems (UpdateOld (changes st)) ++ [c]
  /\ Create (changes st') = Create (changes st)
  /\ Delete (changes st') = Delete (changes st)
  /\ heap st' !! c = Some cur
  /\ heap st' !! new = Some copy
  /\ heap st !! new = None
  /\ labelLookup (Labels copy) OwnerLabelKey = Some (TXTOwner p)
  /\ (forall k, k <> OwnerLabelKey ->
        labelLookup (Labels copy) k = labelLookup (Labels cur) k)
  /\ (forall rest st'',
        rangeM (processRow p) rest st' = Some st'' -> hasMig st'' = true).
Proof.
  intros Hc Hn Hmig Hcur Hm Hold new copy st'.
  assert (Hrun : processRow p st row = Some st').
  { rewrite (processRow_taken p st row c Hc Hn).
    unfold migrationApplies. rewrite Hmig, Hc.
    destruct (candidates row) as [|x xs]; [done|]. simpl.
    rewrite Hcur. simpl. rewrite bool_decide_eq_true_2 by done.
    by apply migrateRow_spec. }
  split; [exact Hrun|]. simpl. rewrite !elems_append.
  repeat split; try done.
  - rewrite lookup_app_l; [done|]. by eapply lookup_lt_Some.
  - by apply list_lookup_middle.
  - by apply lookup_ge_None_2.
  - by rewrite lookup_insert_eq.
  - intros k Hk. rewrite Hm. simpl. by rewrite lookup_insert_ne.
  - intros rest st''.
    apply (rangeM_inv (processRow p) (fun s => hasMig s = true) rest); [|done].
    intros s x s1 _ Hs Hx. unfold processRow in Hx.
    destruct (migrationApplies p x _) as [[]|]; simpl in Hx; [| |done].
    + destruct (current x) as [cx|].
      * by apply migrateRow_changes in Hx as [_ ?].
      * injection Hx as <-. by destruct (current x).
    + destruct (current x) as [cx|] eqn:Ecx.
      * destruct (candidates x) as [|y ys]; simpl in Hx.
        -- by injection Hx as <-.
        -- apply updateRow_changes in Hx as [-> _]. done.
      * by injection Hx as <-.
Qed.
End Rows.

(** ** Calculate *)

Lemma defaultDomainFilter_fields p :
  Current (defaultDomainFilter p) = Current p
  /\ Desired (defaultDomainFilter p) = Desired p
  /\ Missing (defaultDomainFilter p) = Missing p
  /\ Policies (defaultDomainFilter p) = Policies p
  /\ PlanChanges (defaultDomainFilter p) = PlanChanges p
  /\ PropertyComparator (defaultDomainFilter p) = PropertyComparator p
  /\ ManagedRecords (defaultDomainFilter p) = ManagedRecords p
  /\ TXTOwner (defaultDomainFilter p) = TXTOwner p
  /\ HasMig (defaultDomainFilter p) = HasMig p
  /\ TXTOwnerMigrate (defaultDomainFilter p) = TXTOwnerMigrate p
  /\ TXTOwnerOld (defaultDomainFilter p) = TXTOwnerOld p.
Proof. unfold defaultDomainFilter. by destruct (DomainFilter p). Qed.

Lemma filterOwnedLoop_owned `{EndpointPkg} ids eps h out :
  filterOwnedLoop ids eps h = Some out ->
  forall l, l ∈ out ->
    l ∈ eps /\ exists e o, h !! l = Some e
      /\ labelLookup (Labels e) OwnerLabelKey = Some o /\ o ∈ ids.
Proof.
  revert out. induction eps as [|ep rest IH]; intros out; simpl.
  - intros [= <-] l Hl. by apply elem_of_nil in Hl.
  - destruct (h !! ep) as [e|] eqn:Eep; simpl; [|done].
    destruct (filterOwnedLoop ids rest h) as [f|]; simpl; [|done].
    assert (Hrest : forall l, l ∈ f ->
              l ∈ ep :: rest /\ exists e o, h !! l = Some e
                /\ labelLookup (Labels e) OwnerLabelKey = Some o /\ o ∈ ids).
    { intros l Hl. destruct (IH f eq_refl l Hl). split; [by right|done]. }
    destruct (labelLookup (Labels e) OwnerLabelKey) as [o|] eqn:Eo;
      [|intros [= <-]; exact Hrest].
    unfold slicesContains. case_bool_decide as Hin; [|intros [= <-]; exact Hrest].
    intros [= <-] l Hl. apply elem_of_cons in Hl as [->|Hl]; [|by apply Hrest].
    split; [by left|]. by exists e, o.
Qed.

Lemma filterOwnedRecords_owned `{EndpointPkg} p eps h out :
  filterOwnedRecords (TXTOwner p) (TXTOwnerOld p) (TXTOwnerMigrate p) eps h
  = Some out ->
  out <> Some [] /\ forall l, l ∈ elems out -> l ∈ eps /\ ownedIn p h l.
Proof.
  unfold filterOwnedRecords.
  destruct (filterOwnedLoop _ eps h) as [f|] eqn:E; simpl; [|done].
  intros [= <-]. destruct f as [|x f]; simpl.
  - split; [done|]. intros l Hl. by apply elem_of_nil in Hl.
  - split; [done|]. intros l Hl.
    destruct (filterOwnedLoop_owned _ _ _ _ E l Hl) as [Hin (e & o & He & Ho & Hid)].
    split; [done|]. by exists e, o.
Qed.

Section Calc.
Context `{EndpointPkg} `{ConflictResolver}.
Variable rangeRows : gmap planKey planTableRow -> list planTableRow.

Lemma Calculate_inv p0 h p1 plan h' :
  Calculate rangeRows p0 h = Some (p1, plan, h') ->
  exists df rows st raw un uo de,
    p1 = defaultDomainFilter p0
    /\ DomainFilter p1 = Some df
    /\ buildTable p1 df h = Some rows
    /\ rangeM (processRow p1) (rangeRows rows) (startState h) = Some st
    /\ h' = heap st
    /\ rawChanges p1 df st raw
    /\ filterOwnedRecords (TXTOwner p1) (TXTOwnerOld p1) (TXTOwnerMigrate p1)
         (elems (UpdateNew raw)) h' = Some un
    /\ filterOwnedRecords (TXTOwner p1) (TXTOwnerOld p1) (TXTOwnerMigrate p1)
         (elems (UpdateOld raw)) h' = Some uo
    /\ filterOwnedRecords (TXTOwner p1) (TXTOwnerOld p1) (TXTOwnerMigrate p1)
         (elems (Delete raw)) h' = Some de
    /\ PlanChanges plan
       = Some {| Create := Create raw; UpdateOld := uo;
                 UpdateNew := un; Delete := de |}
    /\ Current plan = Current p0 /\ Desired plan = Desired p0
    /\ HasMig plan = hasMig st.
Proof.
  unfold Calculate.
  set (p := defaultDomainFilter p0).
  destruct (DomainFilter p) as [df|] eqn:Edf; simpl; [|done].
  destruct (buildTable p df h) as [rows|] eqn:Erows; simpl; [|done].
  destruct (rangeM (processRow p) (rangeRows rows) (startState h))
    as [st|] eqn:Est; simpl; [|done].
  set (ch := foldl (fun c (pol : Policy) => pol c) (changes st) (Policies p)).
  intros Hrun.
  assert (Hraw : exists raw, rawChanges p df st raw
            /\ (if (0 <? length (Missing p))%nat then
                  ms ← filterRecordsForPlan (Missing p) df
                         (ManagedRecords p ++ [RecordTypeTXT]) (heap st);
                  Some (appendCreate ch ms)
                else Some ch) = Some raw).
  { unfold rawChanges. fold ch.
    destruct (0 <? length (Missing p))%nat.
    - destruct (filterRecordsForPlan (Missing p) df _ (heap st)) as [ms|] eqn:Ems;
        simpl in *; [|done].
      exists (appendCreate ch ms). split; [by exists ms|done].
    - by exists ch. }
  destruct Hraw as (raw & Hraw & Eraw). rewrite Eraw in Hrun. simpl in Hrun.
  destruct (filterOwnedRecords _ _ _ (elems (UpdateNew raw)) (heap st))
    as [un|] eqn:Eun; simpl in Hrun; [|done].
  destruct (filterOwnedRecords _ _ _ (elems (UpdateOld raw)) (heap st))
    as [uo|] eqn:Euo; simpl in Hrun; [|done].
  destruct (filterOwnedRecords _ _ _ (elems (Delete raw)) (heap st))
    as [de|] eqn:Ede; simpl in Hrun; [|done].
  injection Hrun as <- <- <-.
  exists df, rows, st, raw, un, uo, de.
  destruct (defaultDomainFilter_fields p0) as (? & ? & _).
  repeat split; done.
Qed.

(** C1, amended: the ownership filter is applied to UpdateNew, UpdateOld
    and Delete, each on its own, and Create is handed on as it is.  So
    every record of the final UpdateNew, UpdateOld and Delete lists has
    an owner label whose value is the owner, or the old owner when
    migration is on, and each of the three lists is nil, not empty, when
    no record is left. *)
Theorem Calculate_filters_owned p0 h p1 plan h' :
  Calculate rangeRows p0 h = Some (p1, plan, h') ->
  exists df rows st raw ch,
    buildTable p1 df h = Some rows
    /\ rangeM (processRow p1) (rangeRows rows) (startState h) = Some st
    /\ rawChanges p1 df st raw
    /\ PlanChanges plan = Some ch
    /\ Create ch = Create raw
    /\ filterOwnedRecords (TXTOwner p0) (TXTOwnerOld p0) (TXTOwnerMigrate p0)
         (elems (UpdateNew raw)) h' = Some (UpdateNew ch)
    /\ filterOwnedRecords (TXTOwner p0) (TXTOwnerOld p0) (TXTOwnerMigrate p0)
         (elems (UpdateOld raw)) h' = Some (UpdateOld ch)
    /\ filterOwnedRecords (TXTOwner p0) (TXTOwnerOld p0) (TXTOwnerMigrate p0)
         (elems (Delete raw)) h' = Some (Delete ch)
    /\ (forall l, l ∈ elems (UpdateNew ch) -> ownedIn p0 h' l)
    /\ (forall l, l ∈ elems (UpdateOld ch) -> ownedIn p0 h' l)
    /\ (forall l, l ∈ elems (Delete ch) -> ownedIn p0 h' l)
    /\ UpdateNew ch <> Some [] /\ UpdateOld ch <> Some []
    /\ Delete ch <> Some [].
Proof.
  intros Hrun. apply Calculate_inv in Hrun
    as (df & rows & st & raw & un & uo & de & -> & Hdf & Hrows & Hst & ->
        & Hraw & Hun & Huo & Hde & Hch & _).
  destruct (defaultDomainFilter_fields p0)
    as (_ & _ & _ & _ & _ & _ & _ & Eo & _ & Em & Eold).
  rewrite Eo, Em, Eold in Hun, Huo, Hde.
  exists df, rows, st, raw, {| Create := Create raw; UpdateOld := uo;
                               UpdateNew := un; Delete := de |}.
  simpl.
  destruct (filterOwnedRecords_owned p0 _ _ _ Hun) as [Hn1 Ho1].
  destruct (filterOwnedRecords_owned p0 _ _ _ Huo) as [Hn2 Ho2].
  destruct (filterOwnedRecords_owned p0 _ _ _ Hde) as [Hn3 Ho3].
  repeat split; try done.
  - intros l Hl. by apply Ho1.
  - intros l Hl. by apply Ho2.
  - intros l Hl. by apply Ho3.
Qed.

(** C2, amended: [Calculate] writes one field of its receiver: a nil
    DomainFilter becomes the filter that matches everything.  Every other
    field of the receiver is as before, a receiver with a domain filter
    is not written to at all, and the plan returned is a value of its own
    that carries the receiver's Current and Desired. *)
Theorem Calculate_receiver p0 h p1 plan h' :
  Calculate rangeRows p0 h = Some (p1, plan, h') ->
  Current p1 = Current p0 /\ Desired p1 = Desired p0
  /\ Missing p1 = Missing p0 /\ Policies p1 = Policies p0
  /\ PlanChanges p1 = PlanChanges p0 /\ PropertyComparator p1 = PropertyComparator p0
  /\ ManagedRecords p1 = ManagedRecords p0 /\ TXTOwner p1 = TXTOwner p0
  /\ HasMig p1 = HasMig p0 /\ TXTOwnerMigrate p1 = TXTOwnerMigrate p0
  /\ TXTOwnerOld p1 = TXTOwnerOld p0
  /\ DomainFilter p1
     = Some (default MatchAllDomainFilters (DomainFilter p0))
  /\ (is_Some (DomainFilter p0) -> p1 = p0)
  /\ Current plan = Current p0 /\ Desired plan = Desired p0.
Proof.
  intros Hrun. apply Calculate_inv in Hrun
    as (df & rows & st & raw & un & uo & de & -> & _ & _ & _ & _
        & _ & _ & _ & _ & _ & Hcur & Hdes & _).
  destruct (defaultDomainFilter_fields p0)
    as (? & ? & ? & ? & ? & ? & ? & ? & ? & ? & ?).
  repeat split; try done.
  - unfold defaultDomainFilter. by destruct (DomainFilter p0) eqn:E.
  - intros [f Hf]. unfold defaultDomainFilter. by rewrite Hf.
Qed.

(** C5: where the row has a current record and a candidate, migration is
    on and the owner label of the current record is the old owner, the
    turn of the loop adds exactly one pair: a new record, the copy of the
    current one with the owner label set to the new owner, and the
    current record, which stays as it was.  The state after the turn is
    the same whatever the resolver and the TTL, target and property
    predicates would say; the migration flag is set in it, stays set, and
    is the HasMig of the plan that [Calculate] returns. *)
Theorem processRow_migrates p st row c cur m :
  current row = Some c -> candidates row <> [] ->
  TXTOwnerMigrate p = true ->
  heap st !! c = Some cur -> Labels cur = Some m ->
  labelGet (Labels cur) OwnerLabelKey = TXTOwnerOld p ->
  let new := length (heap st) in
  let copy := withLabels cur (Some (<[OwnerLabelKey := TXTOwner p]> m)) in
  let st' := {| changes := appendUpdate (changes st) new c;
                hasMig := true;
                heap := heap st ++ [copy] |} in
  processRow p st row = Some st'
  /\ elems (UpdateNew (changes st')) = elems (UpdateNew (changes st)) ++ [new]
  /\ elems (UpdateOld (changes st')) = elems (UpdateOld (changes st)) ++ [c]
  /\ Create (changes st') = Create (changes st)
  /\ Delete (changes st') = Delete (changes st)
  /\ heap st' !! c = Some cur
  /\ heap st' !! new = Some copy
  /\ heap st !! new = None
  /\ labelLookup (Labels copy) OwnerLabelKey = Some (TXTOwner p)
  /\ (forall k, k <> OwnerLabelKey ->
        labelLookup (Labels copy) k = labelLookup (Labels cur) k)
  /\ (forall p0 h0 p1 plan h',
        p = defaultDomainFilter p0 ->
        visited rangeRows p0 h0 row st ->
        Calculate rangeRows p0 h0 = Some (p1, plan, h') ->
        HasMig plan = true).
Proof.
  intros Hc Hn Hmig Hcur Hm Hold new copy st'.
  destruct (migration_turn p st row c cur m Hc Hn Hmig Hcur Hm Hold)
    as (Hrun & H1 & H2 & H3 & H4 & H5 & H6 & H7 & H8 & H9 & Hlater).
  repeat split; try done.
  intros p0 h0 p1 plan h' -> (df & rows & before & after & Hdf & Hrows & Hsplit & Hpre)
    Hcalc.
  apply Calculate_inv in Hcalc
    as (df' & rows' & stf & raw & un & uo & de & -> & Hdf' & Hrows' & Hst & _
        & _ & _ & _ & _ & _ & _ & _ & ->).
  rewrite Hdf in Hdf'. injection Hdf' as <-.
  rewrite Hrows in Hrows'. injection Hrows' as <-.
  rewrite Hsplit, rangeM_app, Hpre in Hst. simpl in Hst.
  fold new copy st' in Hrun. rewrite Hrun in Hst. simpl in Hst.
  by apply (Hlater after).
Qed.
End Calc.

(** ** What Calculate writes to the store *)

Lemma storeFrame_refl W h : storeFrame W h h.
Proof. intros l e Hl. exists e. by repeat split. Qed.

Lemma storeFrame_weaken (W W' : loc -> Prop) h h' :
  (forall l, W l -> W' l) -> storeFrame W h h' -> storeFrame W' h h'.
Proof.
  intros HW Hf l e Hl. destruct (Hf l e Hl) as (e' & Hl' & Hs & He).
  exists e'. split; [done|]. split; [done|]. intros Hn. apply He. auto.
Qed.

Lemma storeFrame_trans W h1 h2 h3 :
  storeFrame W h1 h2 -> storeFrame W h2 h3 -> storeFrame W h1 h3.
Proof.
  intros H12 H23 l e Hl.
  destruct (H12 l e Hl) as (e2 & Hl2 & Hs2 & He2).
  destruct (H23 l e2 Hl2) as (e3 & Hl3 & Hs3 & He3).
  exists e3. split; [done|]. split.
  - unfold sameButLabels in *.
    destruct Hs2 as (?&?&?&?&?&?&?), Hs3 as (?&?&?&?&?&?&?).
    repeat split; try congruence. auto.
  - intros HW k. rewrite (He3 HW k). by apply He2.
Qed.

Lemma sameButLabels_refl e : sameButLabels e e.
Proof. by repeat split. Qed.

Lemma storeFrame_insert W (h : store) i t m :
  h !! i = Some t ->
  (W i \/ forall k, labelLookup (Some m) k = labelLookup (Labels t) k) ->
  storeFrame W h (<[i := withLabels t (Some m)]> h).
Proof.
  intros Hi Hm l e Hl. destruct (decide (l = i)) as [->|Hne].
  - rewrite Hi in Hl. injection Hl as <-.
    exists (withLabels t (Some m)). split.
    + apply list_lookup_insert_eq. by eapply lookup_lt_Some.
    + split; [repeat split; try done; by eexists|].
      intros HW k. destruct Hm as [?|Hm]; [done|apply Hm].
  - exists e. rewrite list_lookup_insert_ne by done.
    split; [done|]. split; [apply sameButLabels_refl|done].
Qed.

Lemma storeFrame_grow W (h : store) (more : list Endpoint) i x :
  length h <= i -> storeFrame W h (<[i := x]> (h ++ more)).
Proof.
  intros Hi l e Hl. exists e.
  assert (l < length h) by (by eapply lookup_lt_Some).
  rewrite list_lookup_insert_ne by lia. rewrite lookup_app_l by done.
  by repeat split.
Qed.

Lemma inheritOwner_frame `{EndpointPkg} W from to h h' :
  W to -> inheritOwner from to h = Some h' -> storeFrame W h h'.
Proof.
  intros HW. unfold inheritOwner.
  destruct (h !! to) as [t|] eqn:Et; simpl; [|done].
  set (h1 := match Labels t with
             | None => <[to := withLabels t (Some ∅)]> h
             | Some _ => h
             end).
  assert (F1 : storeFrame W h h1).
  { subst h1. destruct (Labels t); [apply storeFrame_refl|].
    apply storeFrame_insert; [done|by left]. }
  destruct (h1 !! from) as [f|] eqn:Ef; simpl; [|done].
  set (h2 := match Labels f with
             | None => <[from := withLabels f (Some ∅)]> h1
             | Some _ => h1
             end).
  assert (F2 : storeFrame W h1 h2).
  { subst h2. destruct (Labels f) eqn:El; [apply storeFrame_refl|].
    apply storeFrame_insert; [done|]. right. intros k. rewrite El. simpl.
    apply lookup_empty. }
  destruct (h2 !! from) as [f'|]; simpl; [|done].
  destruct (h2 !! to) as [t'|] eqn:Et'; simpl; [|done].
  destruct (Labels t') as [g|]; simpl; [|done].
  intros [= <-].
  eapply storeFrame_trans; [exact F1|].
  eapply storeFrame_trans; [exact F2|].
  apply storeFrame_insert; [done|by left].
Qed.

Section Frame.
Context `{EndpointPkg} `{ConflictResolver}.
Variable rangeRows : gmap planKey planTableRow -> list planTableRow.
Hypothesis rangeRows_perm : forall m, rangeRows m ≡ₚ (map_to_list m).*2.

Lemma rangeRows_lookup rows row :
  row ∈ rangeRows rows -> exists k, rows !! k = Some row.
Proof.
  rewrite rangeRows_perm. intros Hin.
  apply list_elem_of_fmap in Hin as [[k r] [-> Hin]].
  exists k. by apply elem_of_map_to_list.
Qed.

Lemma migrateRow_frame W p c st st' :
  migrateRow p c st = Some st' -> storeFrame W (heap st) (heap st').
Proof.
  unfold migrateRow, DeepCopy.
  destruct (heap st !! c) as [cur|]; simpl; [|done].
  destruct ((heap st ++ [cur]) !! length (heap st)) as [u|]; simpl; [|done].
  destruct (labelSet (Labels u) OwnerLabelKey (TXTOwner p)); simpl; [|done].
  intros [= <-]. simpl. by apply storeFrame_grow.
Qed.

Lemma updateRow_frame (W : loc -> Prop) p c cands st st' :
  W (ResolveUpdate (heap st) c cands) ->
  updateRow p c cands st = Some st' -> storeFrame W (heap st) (heap st').
Proof.
  intros HW. unfold updateRow.
  destruct (heap st !! ResolveUpdate (heap st) c cands) as [u|]; simpl; [|done].
  destruct (heap st !! c) as [cur|]; simpl; [|done].
  destruct (shouldUpdateTTL u cur || targetChanged u cur
            || shouldUpdateProviderSpecific p u cur).
  - destruct (inheritOwner c _ (heap st)) as [h'|] eqn:Ei; simpl; [|done].
    intros [= <-]. simpl. by eapply inheritOwner_frame.
  - intros [= <-]. apply storeFrame_refl.
Qed.

Lemma processRow_frame (W : loc -> Prop) p st row st' :
  (forall c, current row = Some c -> candidates row <> [] ->
     W (ResolveUpdate (heap st) c (candidates row))) ->
  processRow p st row = Some st' -> storeFrame W (heap st) (heap st').
Proof.
  intros HW. destruct (current row) as [c|] eqn:Hc.
  - destruct (candidates row) as [|x xs] eqn:Hn.
    + rewrite (processRow_delete p st row c Hc Hn). intros [= <-].
      apply storeFrame_refl.
    + assert (Hne : candidates row <> []) by (by rewrite Hn).
      rewrite (processRow_taken p st row c Hc Hne), Hn.
      destruct (migrationApplies p row (heap st)) as [[]|]; simpl; [| |done].
      * apply migrateRow_frame.
      * apply updateRow_frame. by apply HW.
  - rewrite (processRow_create p st row Hc). intros [= <-].
    apply storeFrame_refl.
Qed.

Lemma loop_frame (W : loc -> Prop) p rows st st' :
  (forall row h c, row ∈ rows -> current row = Some c -> candidates row <> [] ->
     W (ResolveUpdate h c (candidates row))) ->
  rangeM (processRow p) rows st = Some st' ->
  storeFrame W (heap st) (heap st').
Proof.
  intros HW.
  apply (rangeM_inv (processRow p) (fun s => storeFrame W (heap st) (heap s)) rows);
    [|apply storeFrame_refl].
  intros s row s' Hrow Hs Hstep.
  eapply storeFrame_trans; [exact Hs|].
  eapply processRow_frame; [|exact Hstep].
  intros c Hc Hn. by apply HW.
Qed.

End Frame.

(** ** Rows and the resolver *)

Lemma rangeM_ext {A S : Type} (f g : S -> A -> option S) (xs : list A) (s : S) :
  (forall s x, x ∈ xs -> f s x = g s x) -> rangeM f xs s = rangeM g xs s.
Proof.
  revert s. induction xs as [|x rest IH]; intros s Hfg; simpl; [done|].
  rewrite (Hfg s x) by (by left).
  destruct (g s x) as [s1|]; simpl; [|done].
  apply IH. intros s2 y Hy. apply Hfg. by right.
Qed.

Section Occupied.
Context `{EndpointPkg}.
Variable rangeRows : gmap planKey planTableRow -> list planTableRow.
Hypothesis rangeRows_perm : forall m, rangeRows m ≡ₚ (map_to_list m).*2.

Lemma processRow_resolver_ext (R R' : ConflictResolver) p st row :
  (current row = None -> candidates row <> []) ->
  (forall h cs, cs <> [] -> @ResolveCreate R h cs = @ResolveCreate R' h cs) ->
  (forall h c cs, cs <> [] -> @ResolveUpdate R h c cs = @ResolveUpdate R' h c cs) ->
  @processRow _ R p st row = @processRow _ R' p st row.
Proof.
  intros Hocc Hcreate Hupdate. unfold processRow.
  destruct (current row) as [c|] eqn:Hc.
  - destruct (migrationApplies p row _) as [[]|]; simpl; [done| |done].
    destruct (candidates row) as [|x xs]; simpl; [done|].
    unfold updateRow. by rewrite Hupdate.
  - rewrite Hcreate by (by apply Hocc). done.
Qed.

(** C10: every row of the table that [Calculate] builds has a current
    record or at least one candidate, so the rows on which the loop calls
    [ResolveCreate], those without a current record, have a candidate;
    and what [Calculate] returns does not depend on what the resolver
    would answer on an empty list of candidates. *)
Theorem rows_occupied (R R' : ConflictResolver) p0 h :
  (forall df rows,
     buildTable (defaultDomainFilter p0) df h = Some rows ->
     (forall k row, rows !! k = Some row ->
        is_Some (current row) \/ candidates row <> [])
     /\ (forall row, row ∈ rangeRows rows -> current row = None ->
           candidates row <> []))
  /\ ((forall st cs, cs <> [] -> @ResolveCreate R st cs = @ResolveCreate R' st cs) ->
      (forall st c cs, cs <> [] ->
         @ResolveUpdate R st c cs = @ResolveUpdate R' st c cs) ->
      @Calculate _ R rangeRows p0 h = @Calculate _ R' rangeRows p0 h).
Proof.
  assert (Hocc : forall df rows,
            buildTable (defaultDomainFilter p0) df h = Some rows ->
            forall row, row ∈ rangeRows rows -> current row = None ->
              candidates row <> []).
  { intros df rows Hrows row Hrow Hnone.
    rewrite rangeRows_perm in Hrow.
    apply list_elem_of_fmap in Hrow as [[k r] [-> Hin]].
    apply elem_of_map_to_list in Hin.
    destruct (buildTable_ok _ _ _ _ Hrows k r Hin) as ([[c Hc]|Hn] & _); [|done].
    simpl in Hnone. congruence. }
  split.
  - intros df rows Hrows. split; [|by apply (Hocc df)].
    intros k row Hk. by destruct (buildTable_ok _ _ _ _ Hrows k row Hk).
  - intros Hcreate Hupdate. unfold Calculate.
    destruct (DomainFilter (defaultDomainFilter p0)) as [df|]; simpl; [|done].
    destruct (buildTable (defaultDomainFilter p0) df h) as [rows|] eqn:Hrows;
      simpl; [|done].
    rewrite (rangeM_ext (@processRow _ R (defaultDomainFilter p0))
               (@processRow _ R' (defaultDomainFilter p0))); [done|].
    intros s row Hrow. apply processRow_resolver_ext; try done.
    by apply (Hocc df rows).
Qed.
End Occupied.

(** ** Pairs of the loop *)

Lemma sameButLabels_key e e' : sameButLabels e e' -> keyOf e' = keyOf e.
Proof. intros (Hn & _ & Ht & Hs & _). unfold keyOf. by rewrite Hn, Ht, Hs. Qed.

Lemma pairedIn_frame W h h' olds news :
  storeFrame W h h' -> pairedIn h olds news -> pairedIn h' olds news.
Proof.
  intros Hf Hp. unfold pairedIn in *.
  induction Hp as [|o n olds news (eo & en & Ho & Hn & Hk) _ IH]; constructor;
    [|exact IH].
  destruct (Hf o eo Ho) as (eo' & Ho' & Hso & _).
  destruct (Hf n en Hn) as (en' & Hn' & Hsn & _).
  exists eo', en'. repeat split; try done.
  by rewrite (sameButLabels_key _ _ Hso), (sameButLabels_key _ _ Hsn).
Qed.

Lemma rangeM_returns {A S : Type} (body : S -> A -> option S) (P : S -> Prop)
    (xs : list A) :
  (forall s x, x ∈ xs -> P s -> exists s', body s x = Some s' /\ P s') ->
  forall s, P s -> exists s', rangeM body xs s = Some s' /\ P s'.
Proof.
  induction xs as [|x rest IH]; intros Hstep s Hs; simpl.
  - by exists s.
  - destruct (Hstep s x) as (s1 & Hs1 & HP1); [by left|done|].
    rewrite Hs1. simpl. apply IH; [|done].
    intros s2 y Hy. apply Hstep. by right.
Qed.

Lemma filterRecordsForPlan_returns records df managed (h : store) :
  allIn h records -> is_Some (filterRecordsForPlan records df managed h).
Proof.
  induction records as [|r rest IH]; intros Hin; simpl; [by eexists|].
  destruct (Hin r) as [e He]; [by left|]. rewrite He. simpl.
  destruct IH as [f Hf]; [intros l Hl; apply Hin; by right|].
  rewrite Hf. simpl. by eexists.
Qed.

Lemma filterOwnedRecords_returns `{EndpointPkg} owner old mig eps (h : store) :
  allIn h eps -> is_Some (filterOwnedRecords owner old mig eps h).
Proof.
  intros Hin. unfold filterOwnedRecords.
  assert (Hloop : forall ids, is_Some (filterOwnedLoop ids eps h)).
  { intros ids. induction eps as [|ep rest IH]; simpl; [by eexists|].
    destruct (Hin ep) as [e He]; [by left|]. rewrite He. simpl.
    destruct IH as [f Hf]; [intros l Hl; apply Hin; by right|].
    rewrite Hf. simpl. by eexists. }
  destruct (Hloop (if mig then [owner; old] else [owner])) as [f Hf].
  rewrite Hf. simpl. by eexists.
Qed.

Lemma newPlanKey_returns e (h : store) (rows : gmap planKey planTableRow) :
  is_Some (h !! e) ->
  exists key rows1 row, newPlanKey e h rows = Some (key, rows1)
                        /\ rows1 !! key = Some row.
Proof.
  intros [ep Hep]. unfold newPlanKey. rewrite Hep. simpl. fold (keyOf ep).
  destruct (rows !! keyOf ep) as [row|] eqn:E.
  - by exists (keyOf ep), rows, row.
  - exists (keyOf ep), (<[keyOf ep := emptyRow]> rows), emptyRow.
    split; [done|]. apply lookup_insert_eq.
Qed.

Lemma addCurrent_returns (h : store) rows e :
  is_Some (h !! e) -> is_Some (addCurrent h rows e).
Proof.
  intros He. destruct (newPlanKey_returns e h rows He) as (k & r1 & row & Hk & Hrow).
  unfold addCurrent. rewrite Hk. simpl. rewrite Hrow. simpl. by eexists.
Qed.

Lemma addCandidate_returns (h : store) rows e :
  is_Some (h !! e) -> is_Some (addCandidate h rows e).
Proof.
  intros He. destruct (newPlanKey_returns e h rows He) as (k & r1 & row & Hk & Hrow).
  unfold addCandidate. rewrite Hk. simpl. rewrite Hrow. simpl. by eexists.
Qed.

Lemma buildTable_returns p df (h : store) :
  allIn h (Current p) -> allIn h (Desired p) -> is_Some (buildTable p df h).
Proof.
  intros Hc Hd. unfold buildTable.
  destruct (filterRecordsForPlan_returns (Current p) df (ManagedRecords p) h Hc)
    as [cur Hcur].
  rewrite Hcur. simpl.
  destruct (rangeM_returns (addCurrent h) (fun _ => True) cur) with (s := ∅ : gmap planKey planTableRow)
    as (t1 & Ht1 & _); [|done|].
  { intros s x Hx _.
    destruct (addCurrent_returns h s x) as [s' Hs'];
      [by apply (filterRecordsForPlan_subset _ _ _ _ _ Hcur)|].
    by exists s'. }
  rewrite Ht1. simpl.
  destruct (filterRecordsForPlan_returns (Desired p) df (ManagedRecords p) h Hd)
    as [des Hdes].
  rewrite Hdes. simpl.
  destruct (rangeM_returns (addCandidate h) (fun _ => True) des) with (s := t1)
    as (t2 & Ht2 & _); [|done|].
  { intros s x Hx _.
    destruct (addCandidate_returns h s x) as [s' Hs'];
      [by apply (filterRecordsForPlan_subset _ _ _ _ _ Hdes)|].
    by exists s'. }
  by exists t2.
Qed.

Lemma storeFrame_allIn W (h h' : store) ls :
  storeFrame W h h' -> allIn h ls -> allIn h' ls.
Proof.
  intros Hf Hin l Hl. destruct (Hin l Hl) as [e He].
  destruct (Hf l e He) as (e' & He' & _). by exists e'.
Qed.

Lemma pairedIn_allIn (h : store) olds news :
  pairedIn h olds news -> allIn h news /\ allIn h olds.
Proof.
  induction 1 as [|o n olds news (eo & en & Ho & Hn & _) _ [IHn IHo]].
  - split; intros l Hl; by apply elem_of_nil in Hl.
  - split; intros l Hl; apply elem_of_cons in Hl as [->|Hl]; eauto.
Qed.

Lemma filterOwnedLoop_cons `{EndpointPkg} ids ep rest (h : store) :
  filterOwnedLoop ids (ep :: rest) h
  = (e ← h !! ep; f ← filterOwnedLoop ids rest h;
     Some (if passes ids h ep then ep :: f else f)).
Proof.
  simpl. unfold passes. destruct (h !! ep) as [e|]; simpl; [|done].
  destruct (filterOwnedLoop ids rest h); simpl; [|done].
  by destruct (labelLookup (Labels e) OwnerLabelKey).
Qed.




Lemma fmap_Permutation_inv {A B : Type} (f : A -> B) (l1 : list B) (l2 : list A) :
  l1 ≡ₚ f <$> l2 -> exists l3, l1 = f <$> l3 /\ l3 ≡ₚ l2.
Proof.
  intros Hp. change (f <$> l2) with (map f l2) in Hp.
  apply Permutation_map_inv in Hp as (l3 & -> & Hp).
  exists l3. split; [done|by symmetry].
Qed.

Section Pairs.
Context `{EndpointPkg} `{ConflictResolver}.
Variable rangeRows : gmap planKey planTableRow -> list planTableRow.
Hypothesis rangeRows_perm : forall m, rangeRows m ≡ₚ (map_to_list m).*2.
Hypothesis ResolveUpdate_candidate :
  forall h c cs, cs <> [] -> ResolveUpdate h c cs ∈ cs.

Lemma migrateRow_copy p c st st' :
  migrateRow p c st = Some st' ->
  exists cur m,
    heap st' !! c = Some cur
    /\ heap st' !! length (heap st) = Some (withLabels cur m).
Proof.
  unfold migrateRow, DeepCopy.
  destruct (heap st !! c) as [cur|] eqn:Ec; simpl; [|done].
  rewrite list_lookup_middle by done. simpl.
  destruct (labelSet (Labels cur) OwnerLabelKey (TXTOwner p)) as [m|];
    simpl; [|done].
  intros [= <-]. simpl. exists cur, m.
  assert (c < length (heap st)) by (by eapply lookup_lt_Some).
  split.
  - rewrite list_lookup_insert_ne by lia. by rewrite lookup_app_l.
  - apply list_lookup_insert_eq. rewrite length_app. simpl. lia.
Qed.

(** A turn of the loop keeps the pairs there are and adds at most one,
    of the row's current record and a record under the same key. *)
Lemma processRow_pairs h0 C D k p st row st' :
  rowOk h0 C D k row ->
  storeFrame (fun _ => True) h0 (heap st) ->
  pairedIn (heap st) (elems (UpdateOld (changes st)))
    (elems (UpdateNew (changes st))) ->
  processRow p st row = Some st' ->
  pairedIn (heap st') (elems (UpdateOld (changes st')))
    (elems (UpdateNew (changes st'))).
Proof.
  intros (_ & Hcur & Hcands) Hf0 Hp Hrun.
  assert (Hf : storeFrame (fun _ => True) (heap st) (heap st')).
  { eapply (processRow_frame (fun _ => True)); [|exact Hrun]. done. }
  apply (pairedIn_frame _ _ _ _ _ Hf) in Hp.
  destruct (current row) as [c|] eqn:Hc.
  - destruct (candidates row) as [|x xs] eqn:Hn.
    + rewrite (processRow_delete p st row c Hc Hn) in Hrun.
      by injection Hrun as <-.
    + assert (Hne : candidates row <> []) by (by rewrite Hn).
      rewrite (processRow_taken p st row c Hc Hne), Hn in Hrun.
      destruct (migrationApplies p row (heap st)) as [[]|]; simpl in Hrun;
        [| |done].
      * destruct (migrateRow_copy _ _ _ _ Hrun) as (cur & m & Hc' & Hnew).
        apply migrateRow_changes in Hrun as [-> _]. simpl.
        rewrite !elems_append. apply Forall2_app; [done|].
        constructor; [|done]. by exists cur, (withLabels cur m).
      * destruct (updateRow_changes _ _ _ _ _ Hrun) as [_ [->| ->]]; [done|].
        simpl. rewrite !elems_append. apply Forall2_app; [done|].
        constructor; [|done].
        destruct (Hcur c eq_refl) as [_ (ec & Hec & Hkc)].
        assert (Hu : ResolveUpdate (heap st) c (x :: xs) ∈ x :: xs)
          by (by apply ResolveUpdate_candidate).
        destruct (Hcands _ Hu) as [_ (eu & Heu & Hku)].
        destruct (storeFrame_trans _ _ _ _ Hf0 Hf c ec Hec) as (ec' & Hec' & Hsc & _).
        destruct (storeFrame_trans _ _ _ _ Hf0 Hf _ eu Heu) as (eu' & Heu' & Hsu & _).
        exists ec', eu'. repeat split; try done.
        rewrite (sameButLabels_key _ _ Hsc), (sameButLabels_key _ _ Hsu). congruence.
  - rewrite (processRow_create p st row Hc) in Hrun. by injection Hrun as <-.
Qed.

(** X17: with a resolver that returns one of the candidates, the lists of
    the loop are paired: UpdateOld and UpdateNew have the same length and
    hold, index by index, records under the same grouping key.  This is
    before the ownership filter, which treats the two lists apart. *)
Lemma loop_keeps_pairs p0 h p1 plan h' :
  Calculate rangeRows p0 h = Some (p1, plan, h') ->
  exists df rows st,
    buildTable p1 df h = Some rows
    /\ rangeM (processRow p1) (rangeRows rows) (startState h) = Some st
    /\ h' = heap st
    /\ pairedIn h' (elems (UpdateOld (changes st))) (elems (UpdateNew (changes st)))
    /\ length (elems (UpdateOld (changes st)))
       = length (elems (UpdateNew (changes st))).
Proof.
  intros Hrun. apply Calculate_inv in Hrun
    as (df & rows & st & raw & un & uo & de & -> & Hdf & Hrows & Hst & ->
        & _).
  assert (Hinv : storeFrame (fun _ => True) h (heap st)
                 /\ pairedIn (heap st) (elems (UpdateOld (changes st)))
                      (elems (UpdateNew (changes st)))).
  { apply (rangeM_inv (processRow (defaultDomainFilter p0))
             (fun s => storeFrame (fun _ => True) h (heap s)
                       /\ pairedIn (heap s) (elems (UpdateOld (changes s)))
                            (elems (UpdateNew (changes s))))
             (rangeRows rows)) with (s := startState h); [| |exact Hst].
    - intros s row s' Hrow [Hf Hp] Hstep.
      apply (rangeRows_lookup _ rangeRows_perm) in Hrow as [k Hk].
      pose proof (buildTable_ok _ _ _ _ Hrows k row Hk) as Hok.
      split.
      + eapply storeFrame_trans; [exact Hf|].
        eapply (processRow_frame (fun _ => True)); [|exact Hstep]. done.
      + by eapply processRow_pairs.
    - split; [apply storeFrame_refl|]. simpl. constructor. }
  destruct Hinv as [_ Hpairs].
  exists df, rows, st. repeat split; try done.
  by eapply Forall2_length.
Qed.

Lemma processRow_keeps_ok h0 C D k p st row st' :
  rowOk h0 C D k row -> loopOk h0 st ->
  processRow p st row = Some st' -> loopOk h0 st'.
Proof.
  intros Hrow (Hf & Hp & Hd) Hrun.
  assert (Hstep : storeFrame (fun _ => True) (heap st) (heap st')).
  { eapply (processRow_frame (fun _ => True)); [|exact Hrun]. done. }
  pose proof (processRow_pairs _ _ _ _ _ _ _ _ Hrow Hf Hp Hrun) as Hp'.
  split; [by eapply storeFrame_trans|]. split; [exact Hp'|].
  pose proof (storeFrame_allIn _ _ _ _ Hstep Hd) as Hd'.
  apply processRow_shape in Hrun
    as [[Hc ->]|[(c & Hc & Hn & ->)|(c & Hc & Hn & [->|[u ->]])]]; simpl;
    try exact Hd'.
  rewrite elems_append. intros l Hl. apply elem_of_app in Hl as [Hl|Hl].
  - by apply Hd'.
  - apply list_elem_of_singleton in Hl as ->.
    destruct Hrow as (_ & Hcur & _). destruct (Hcur c Hc) as [_ (e & He & _)].
    destruct (storeFrame_trans _ _ _ _ Hf Hstep c e He) as (e' & He' & _).
    by exists e'.
Qed.

(** The loop over the rows of a table built on store [h0] returns, and
    keeps what [loopOk] says. *)
Lemma loop_returns p h0 rows :
  tableOk h0 (Current p) (Desired p) rows ->
  (TXTOwnerMigrate p = true -> TXTOwnerOld p = "" ->
   forall l e, l ∈ Current p -> h0 !! l = Some e -> is_Some (Labels e)) ->
  exists st,
    rangeM (processRow p) (rangeRows rows) (startState h0) = Some st
    /\ loopOk h0 st.
Proof.
  intros Htable Hnil.
  apply (rangeM_returns (processRow p) (loopOk h0)).
  - intros s row Hrow Hs.
    apply (rangeRows_lookup _ rangeRows_perm) in Hrow as [k Hk].
    pose proof (Htable k row Hk) as Hok.
    destruct (processRow_returns p s row) as [s' Hs'].
    + intros c Hc Hn. destruct Hok as (_ & Hcur & Hcands).
      destruct (Hcur c Hc) as [HcC (e & He & _)].
      destruct Hs as (Hf & _).
      destruct (Hf c e He) as (cur & Hcur' & Hsame & _).
      exists cur. split; [done|]. split.
      * destruct (Hcands _ (ResolveUpdate_candidate (heap s) c _ Hn))
          as [_ (eu & Heu & _)].
        destruct (Hf _ eu Heu) as (eu' & Heu' & _). by exists eu'.
      * intros Hmig Hold. destruct (Labels cur) as [m|] eqn:Em; [by eexists|].
        assert (Hempty : TXTOwnerOld p = "") by (by rewrite <- Hold).
        destruct Hsame as (_ & _ & _ & _ & _ & _ & Hkeep).
        rewrite <- Em. apply Hkeep. by apply (Hnil Hmig Hempty c e).
    + exists s'. split; [done|]. by eapply processRow_keeps_ok.
  - split; [apply storeFrame_refl|]. split; [constructor|].
    intros l Hl. by apply elem_of_nil in Hl.
Qed.

(** X18: [Calculate] returns: on a store that holds the records of Current,
    Desired and Missing, with a resolver that returns one of the
    candidates, and with policies that hand on records of the store.
    Where migration is on from an empty old owner, the current records
    must have a label map, for the migration branch writes to the copy's. *)
Lemma Calculate_returns p0 h :
  allIn h (Current p0) -> allIn h (Desired p0) -> allIn h (Missing p0) ->
  (TXTOwnerMigrate p0 = true -> TXTOwnerOld p0 = "" ->
   forall l e, l ∈ Current p0 -> h !! l = Some e -> is_Some (Labels e)) ->
  (forall pol, pol ∈ Policies p0 -> policyOk pol) ->
  is_Some (Calculate rangeRows p0 h).
Proof.
  intros Hc Hd Hm Hnil Hpol. unfold Calculate.
  destruct (defaultDomainFilter_fields p0)
    as (Ec & Ed & Em & Ep & _ & _ & _ & _ & _ & Emig & Eold).
  set (p := defaultDomainFilter p0) in *.
  assert (Hdf : is_Some (DomainFilter p)).
  { subst p. unfold defaultDomainFilter.
    destruct (DomainFilter p0) eqn:E; [by rewrite E|by eexists]. }
  destruct Hdf as [df Hdf]. rewrite Hdf. simpl.
  destruct (buildTable_returns p df h) as [rows Hrows];
    [by rewrite Ec|by rewrite Ed|].
  rewrite Hrows. simpl.
  destruct (loop_returns p h rows) as (st & Hst & Hf & Hp & Hde).
  { by apply buildTable_ok in Hrows. }
  { rewrite Emig, Eold, Ec. exact Hnil. }
  rewrite Hst. simpl.
  set (ch := foldl (fun c (pol : Policy) => pol c) (changes st) (Policies p)).
  assert (Hch : allIn (heap st) (filtered ch)).
  { subst ch. rewrite Ep.
    assert (Hstart : allIn (heap st) (filtered (changes st))).
    { destruct (pairedIn_allIn _ _ _ Hp) as [Hn Ho].
      intros l Hl. unfold filtered in Hl.
      apply elem_of_app in Hl as [Hl|Hl]; [by apply Hn|].
      apply elem_of_app in Hl as [Hl|Hl]; [by apply Ho|by apply Hde]. }
    revert Hstart Hpol. generalize (changes st). clear.
    induction (Policies p0) as [|pol pols IH]; intros c Hstart Hpol; simpl;
      [done|].
    apply IH.
    - apply (Hpol pol); [by left|done].
    - intros q Hq. apply Hpol. by right. }
  assert (Hch' : exists ch',
            (if (0 <? length (Missing p))%nat then
               ms ← filterRecordsForPlan (Missing p) df
                      (ManagedRecords p ++ [RecordTypeTXT]) (heap st);
               Some (appendCreate ch ms)
             else Some ch) = Some ch'
            /\ allIn (heap st) (filtered ch')).
  { destruct (0 <? length (Missing p))%nat; [|by exists ch].
    destruct (filterRecordsForPlan_returns (Missing p) df
                (ManagedRecords p ++ [RecordTypeTXT]) (heap st)) as [ms Hms].
    { rewrite Em. by eapply storeFrame_allIn. }
    rewrite Hms. simpl. by exists (appendCreate ch ms). }
  destruct Hch' as (ch' & -> & Hin). simpl.
  destruct (filterOwnedRecords_returns (TXTOwner p) (TXTOwnerOld p)
              (TXTOwnerMigrate p) (elems (UpdateNew ch')) (heap st)) as [un Hun].
  { intros l Hl. apply Hin. unfold filtered. apply elem_of_app. by left. }
  destruct (filterOwnedRecords_returns (TXTOwner p) (TXTOwnerOld p)
              (TXTOwnerMigrate p) (elems (UpdateOld ch')) (heap st)) as [uo Huo].
  { intros l Hl. apply Hin. unfold filtered. apply elem_of_app. right.
    apply elem_of_app. by left. }
  destruct (filterOwnedRecords_returns (TXTOwner p) (TXTOwnerOld p)
              (TXTOwnerMigrate p) (elems (Delete ch')) (heap st)) as [de Hdel].
  { intros l Hl. apply Hin. unfold filtered. apply elem_of_app. right.
    apply elem_of_app. by right. }
  rewrite Hun, Huo, Hdel. simpl. by eexists.
Qed.

Lemma migrationApplies_true p row (h : store) :
  migrationApplies p row h = Some true ->
  TXTOwnerMigrate p = true
  /\ exists c cur, current row = Some c /\ h !! c = Some cur
       /\ labelGet (Labels cur) OwnerLabelKey = TXTOwnerOld p.
Proof.
  unfold migrationApplies. destruct (TXTOwnerMigrate p); [|done].
  destruct (current row) as [c|]; [|done].
  destruct (0 <? length (candidates row))%nat; [|done].
  destruct (h !! c) as [cur|] eqn:E; simpl; [|done].
  intros [= Hb]. apply bool_decide_eq_true in Hb. split; [done|]. by exists c, cur.
Qed.

Lemma updateRow_inherit p c cands st st' :
  updateRow p c cands st = Some st' ->
  st' = st
  \/ (changes st' = appendUpdate (changes st) (ResolveUpdate (heap st) c cands) c
      /\ inheritOwner c (ResolveUpdate (heap st) c cands) (heap st)
         = Some (heap st')).
Proof.
  unfold updateRow.
  destruct (heap st !! ResolveUpdate (heap st) c cands) as [u|]; simpl; [|done].
  destruct (heap st !! c) as [cur|]; simpl; [|done].
  destruct (shouldUpdateTTL u cur || targetChanged u cur
            || shouldUpdateProviderSpecific p u cur).
  - destruct (inheritOwner c _ (heap st)) as [h'|] eqn:Ei; simpl; [|done].
    intros [= <-]. by right.
  - intros [= <-]. by left.
Qed.



Lemma filterOwnedRecords_loop owner old mig eps (h : store) out :
  filterOwnedRecords owner old mig eps h = Some out ->
  filterOwnedLoop (if mig then [owner; old] else [owner]) eps h
  = Some (elems out).
Proof.
  unfold filterOwnedRecords.
  destruct (filterOwnedLoop _ eps h) as [f|]; simpl; [|done].
  intros [= <-]. by destruct f.
Qed.

End Pairs.

(** ** The model at work *)

Lemma rangeInKeyOrder_perm (m : gmap planKey planTableRow) :
  rangeInKeyOrder m ≡ₚ (map_to_list m).*2.
Proof. reflexivity. Qed.

(** Scenario A of the spec: same targets, nothing to do. *)
Example scenario_noop :
  (runChanges (samplePlan [0] [1] "me" "" false)
     [rec "foo.com." ["1.1.1.1"] (ownedBy "me"); rec "foo.com." ["1.1.1.1"] None])
  = Some (emptyChanges, false).
Proof. vm_compute. reflexivity. Qed.

(** Scenario C: a current record that nothing asks for is deleted. *)
Example scenario_delete :
  (runChanges (samplePlan [0] [] "me" "" false)
     [rec "baz.com." ["1.2.3.4"] (ownedBy "me")])
  = Some ({| Create := None; UpdateOld := None; UpdateNew := None;
             Delete := Some [0] |}, false).
Proof. vm_compute. reflexivity. Qed.

(** Scenario D: migration from owner "old" to owner "new". *)
Example scenario_migrate :
  (runChanges (samplePlan [0] [1] "new" "old" true)
     [rec "qux.com." ["1.2.3.4"] (ownedBy "old"); rec "qux.com." ["1.2.3.4"] None])
  = Some ({| Create := None; UpdateOld := Some [0]; UpdateNew := Some [2];
             Delete := None |}, true).
Proof. vm_compute. reflexivity. Qed.

(** C1, as the spec words it, fails: a desired record without an owner
    label comes out in Create. *)
Lemma Calculate_create_unowned :
  run planCreate storeCreate
  = Some (defaultDomainFilter planCreate,
          returned planCreate
            {| Create := Some [0]; UpdateOld := None; UpdateNew := None;
               Delete := None |} false,
          storeCreate)
  /\ ~ @ownedIn sampleEndpoint planCreate storeCreate 0.
Proof.
  split; [vm_compute; reflexivity|].
  intros (e & o & He & Ho & _). injection He as <-. discriminate Ho.
Qed.

Lemma Calculate_filters_owned_witness :
  let ch := {| Create := None; UpdateOld := None; UpdateNew := None;
               Delete := Some [0] |} in
  run planDelete storeDelete
  = Some (defaultDomainFilter planDelete, returned planDelete ch false, storeDelete)
  /\ (forall l, l ∈ elems (Delete ch) -> @ownedIn sampleEndpoint planDelete storeDelete l).
Proof.
  intros ch.
  assert (Hrun : run planDelete storeDelete
                 = Some (defaultDomainFilter planDelete,
                         returned planDelete ch false, storeDelete))
    by (vm_compute; reflexivity).
  split; [exact Hrun|].
  destruct (@Calculate_filters_owned sampleEndpoint firstCandidate
              rangeInKeyOrder _ _ _ _ _ Hrun)
    as (df & rows & st & raw & ch' & _ & _ & _ & Hch & _ & _ & _ & _ & _ & _
        & Hde & _).
  injection Hch as <-. exact Hde.
Defined.

(** C2, as the spec words it, fails: a receiver without a domain filter
    has one after the call. *)
Lemma Calculate_sets_domain_filter :
  exists p1 plan h',
    run planDelete storeDelete = Some (p1, plan, h')
    /\ DomainFilter planDelete = None
    /\ DomainFilter p1 = Some MatchAllDomainFilters
    /\ p1 <> planDelete.
Proof.
  eexists _, _, _.
  split; [vm_compute; reflexivity|]. split; [reflexivity|]. split; [reflexivity|].
  intros Heq. apply (f_equal DomainFilter) in Heq. discriminate Heq.
Qed.

Lemma Calculate_receiver_witness :
  let ch := {| Create := None; UpdateOld := None; UpdateNew := None;
               Delete := Some [0] |} in
  run planDelete storeDelete
  = Some (defaultDomainFilter planDelete, returned planDelete ch false, storeDelete)
  /\ Current (defaultDomainFilter planDelete) = Current planDelete
  /\ TXTOwner (defaultDomainFilter planDelete) = TXTOwner planDelete
  /\ DomainFilter (defaultDomainFilter planDelete) = Some MatchAllDomainFilters.
Proof.
  intros ch.
  assert (Hrun : run planDelete storeDelete
                 = Some (defaultDomainFilter planDelete,
                         returned planDelete ch false, storeDelete))
    by (vm_compute; reflexivity).
  split; [exact Hrun|].
  destruct (@Calculate_receiver sampleEndpoint firstCandidate
              rangeInKeyOrder _ _ _ _ _ Hrun)
    as (H1 & _ & _ & _ & _ & _ & _ & H8 & _ & _ & _ & H12 & _).
  clear Hrun. split; [exact H1|]. split; [exact H8|exact H12].
Defined.


Lemma processRow_migrates_witness :
  @processRow sampleEndpoint firstCandidate (defaultDomainFilter planMigrate)
    (startState storeMigrate) rowMigrate
  = Some {| changes := appendUpdate emptyChanges 2 0;
            hasMig := true;
            heap := storeMigrated |}
  /\ forall p1 plan h',
       run planMigrate storeMigrate = Some (p1, plan, h') -> HasMig plan = true.
Proof.
  destruct (@processRow_migrates sampleEndpoint firstCandidate rangeInKeyOrder
              (defaultDomainFilter planMigrate) (startState storeMigrate)
              rowMigrate 0 (rec "qux.com." ["1.2.3.4"] (ownedBy "old"))
              {[ "owner" := "old" ]})
    as (Hrun & _ & _ & _ & _ & _ & _ & _ & _ & _ & Hmig);
    [reflexivity|discriminate|reflexivity|reflexivity|reflexivity
    |vm_compute; reflexivity|].
  split.
  - rewrite Hrun. vm_compute. reflexivity.
  - intros p1 plan h' Hcalc.
    apply (Hmig planMigrate storeMigrate p1 plan h'); [reflexivity| |exact Hcalc].
    assert (Hrange : rangeInKeyOrder
                       <$> buildTable (defaultDomainFilter planMigrate)
                             MatchAllDomainFilters storeMigrate
                     = Some [rowMigrate])
      by (vm_compute; reflexivity).
    apply fmap_Some in Hrange as (rows & Hrows & Hrange).
    exists MatchAllDomainFilters, rows, [], [].
    split; [reflexivity|]. split; [exact Hrows|].
    split; [by symmetry|reflexivity].
Defined.



Lemma rows_occupied_witness :
  let other := {| ResolveCreate := fun _ cs => default 7 (head cs);
                  ResolveUpdate := fun _ _ cs => default 7 (head cs) |} in
  @Calculate sampleEndpoint firstCandidate rangeInKeyOrder planCreate storeCreate
  = @Calculate sampleEndpoint other rangeInKeyOrder planCreate storeCreate.
Proof.
  intros other.
  apply (@rows_occupied sampleEndpoint rangeInKeyOrder rangeInKeyOrder_perm
           firstCandidate other planCreate storeCreate).
  - intros st cs Hcs. by destruct cs.
  - intros st c cs Hcs. by destruct cs.
Defined.

(** C4 fails on the code.  With an empty owner identity, a current record
    without an owner label and a change of its targets, [inheritOwner]
    gives the update an owner label with the empty value, the ownership
    filter keeps the update and drops the current record, and UpdateNew has
    one entry where UpdateOld has none. *)
Lemma Calculate_unpaired_update :
  let ch := {| Create := None; UpdateOld := None; UpdateNew := Some [1];
               Delete := None |} in
  Policies (planUpdate "") = []
  /\ run (planUpdate "") storeUpdate
     = Some (defaultDomainFilter (planUpdate ""),
             returned (planUpdate "") ch false, storeUpdated)
  /\ length (elems (UpdateOld ch)) = 0
  /\ length (elems (UpdateNew ch)) = 1.
Proof.
  intros ch. split; [reflexivity|]. split; [vm_compute; reflexivity|]. by split.
Qed.

(** * Further properties of the code *)

(** ** normalizeDNSName *)

Lemma ToLower_fixed s :
  allBytes (fun a => negb (isUpper a)) s = true -> ToLower s = s.
Proof.
  induction s as [|a r IH]; simpl; [done|].
  intros Hs. apply andb_true_iff in Hs as [Ha Hr].
  unfold toLowerByte. apply negb_true_iff in Ha. rewrite Ha. by rewrite IH.
Qed.

Lemma ToLower_idemp s : ToLower (ToLower s) = ToLower s.
Proof. apply ToLower_fixed, ToLower_no_upper. Qed.

Lemma isSpace_not_upper a : isSpace a = true -> isUpper a = false.
Proof.
  unfold isSpace, isUpper. cbv zeta. intros Hs.
  apply andb_false_iff.
  apply orb_true_iff in Hs as [Hs|Hs].
  - apply andb_true_iff in Hs as [_ Hs]. apply Nat.leb_le in Hs.
    left. apply Nat.leb_gt. lia.
  - apply Nat.eqb_eq in Hs. left. apply Nat.leb_gt. lia.
Qed.

Lemma ToLower_app s t : ToLower (s +:+ t) = ToLower s +:+ ToLower t.
Proof. induction s as [|a r IH]; simpl; [done|]. by rewrite IH. Qed.

Lemma ToLower_blank s : isBlank s = true -> ToLower s = s.
Proof.
  unfold isBlank. induction s as [|a r IH]; simpl; [done|].
  intros Hs. apply andb_true_iff in Hs as [Ha Hr].
  unfold toLowerByte. rewrite (isSpace_not_upper a Ha). by rewrite IH.
Qed.

Lemma trimLeft_blank_app ws s : isBlank ws = true -> trimLeft (ws +:+ s) = trimLeft s.
Proof.
  unfold isBlank. induction ws as [|a r IH]; simpl; [done|].
  intros Hs. apply andb_true_iff in Hs as [Ha Hr]. rewrite Ha. by apply IH.
Qed.

Lemma trimRight_blank ws : isBlank ws = true -> trimRight ws = EmptyString.
Proof.
  unfold isBlank. induction ws as [|a r IH]; simpl; [done|].
  intros Hs. apply andb_true_iff in Hs as [Ha Hr]. by rewrite IH, Ha.
Qed.

Lemma trimRight_app_blank s ws :
  isBlank ws = true -> trimRight (s +:+ ws) = trimRight s.
Proof.
  intros Hws. induction s as [|a r IH]; simpl.
  - by apply trimRight_blank.
  - by rewrite IH.
Qed.

Lemma trimLeft_app_nonblank s t :
  trimLeft s <> EmptyString -> trimLeft (s +:+ t) = trimLeft s +:+ t.
Proof.
  induction s as [|a r IH]; simpl; [done|].
  destruct (isSpace a); [exact IH|done].
Qed.

Lemma normalizeDNSName_fixed r :
  allBytes (fun a => negb (isUpper a)) r = true ->
  TrimSpace r = r -> HasSuffix r "." = true -> normalizeDNSName r = r.
Proof.
  intros Hlow Htrim Hdot. unfold normalizeDNSName.
  by rewrite (ToLower_fixed r Hlow), Htrim, Hdot.
Qed.

Lemma normalizeDNSName_shape s :
  let r := normalizeDNSName s in
  allBytes (fun a => negb (isUpper a)) r = true
  /\ TrimSpace r = r /\ HasSuffix r "." = true.
Proof.
  intros r. subst r. unfold normalizeDNSName.
  set (t := TrimSpace (ToLower s)).
  assert (Hlow : allBytes (fun a => negb (isUpper a)) t = true).
  { subst t. unfold TrimSpace.
    apply allBytes_trimRight, allBytes_trimLeft, ToLower_no_upper. }
  destruct (TrimSpace_shape (ToLower s)) as [Hlead Htrail]. fold t in Hlead, Htrail.
  destruct (HasSuffix t ".") eqn:E; simpl.
  - split; [done|]. split; [by apply TrimSpace_fixed|done].
  - split; [by rewrite allBytes_app, Hlow|]. split.
    + apply TrimSpace_fixed; [by apply noLeadingSpace_snoc|by apply trimRight_snoc].
    + apply HasSuffix_app.
Qed.

(** X1: [normalizeDNSName] is idempotent: a name that has been normalized
    once is its own normal form, so a grouping key can be normalized again
    without changing. *)
Theorem normalizeDNSName_idempotent (s : string) (Hs : isASCII s = true) :
  normalizeDNSName (normalizeDNSName s) = normalizeDNSName s.
Proof.
  destruct (normalizeDNSName_shape s) as (Hlow & Htrim & Hdot).
  by apply normalizeDNSName_fixed.
Qed.

Lemma normalizeDNSName_idempotent_witness :
  isASCII " Foo.Com" = true
  /\ normalizeDNSName (normalizeDNSName " Foo.Com") = normalizeDNSName " Foo.Com".
Proof.
  split; [reflexivity|].
  apply (normalizeDNSName_idempotent " Foo.Com"). reflexivity.
Defined.

(** X2: names that differ only in the case of their letters and in white
    space around them have the same normal form, hence the same grouping
    key. *)
Theorem normalizeDNSName_case_space (s1 s2 ws1 ws2 : string)
    (H1 : isASCII s1 = true) (H2 : isASCII s2 = true)
    (Hcase : ToLower s1 = ToLower s2)
    (Hws1 : isBlank ws1 = true) (Hws2 : isBlank ws2 = true) :
  normalizeDNSName (ws1 +:+ s1 +:+ ws2) = normalizeDNSName s2.
Proof.
  unfold normalizeDNSName.
  assert (Ht : TrimSpace (ToLower (ws1 +:+ s1 +:+ ws2)) = TrimSpace (ToLower s2)).
  { rewrite !ToLower_app, (ToLower_blank ws1 Hws1), (ToLower_blank ws2 Hws2), Hcase.
    unfold TrimSpace. rewrite trimLeft_blank_app by done.
    destruct (trimLeft (ToLower s2)) as [|a r] eqn:E.
    - assert (Hb : trimLeft (ToLower s2 +:+ ws2) = trimLeft ws2).
      { clear -E. induction (ToLower s2) as [|b t IH]; simpl in *; [done|].
        destruct (isSpace b); [by apply IH|done]. }
      rewrite Hb. simpl.
      assert (Hblank : isBlank (trimLeft ws2) = true)
        by (by apply allBytes_trimLeft).
      by apply trimRight_blank.
    - rewrite trimLeft_app_nonblank by (by rewrite E).
      rewrite E. by apply trimRight_app_blank. }
  by rewrite Ht.
Qed.

Lemma normalizeDNSName_case_space_witness :
  normalizeDNSName ("  " +:+ "Foo.COM." +:+ " ") = normalizeDNSName "foo.com.".
Proof.
  apply (normalizeDNSName_case_space "Foo.COM." "foo.com." "  " " ");
    reflexivity.
Defined.

(** ** The two filters *)

Lemma IsManagedRecord_elem record managedRecords :
  IsManagedRecord record managedRecords = bool_decide (record ∈ managedRecords).
Proof.
  induction managedRecords as [|r rest IH]; cbn [IsManagedRecord].
  - symmetry. apply bool_decide_eq_false_2, not_elem_of_nil.
  - destruct (decide (record = r)) as [->|Hr].
    + rewrite (bool_decide_eq_true_2 (r = r)) by done.
      symmetry. apply bool_decide_eq_true_2. by left.
    + rewrite (bool_decide_eq_false_2 (record = r)) by done.
      rewrite IH. apply bool_decide_ext. split.
      * intros Hin. by right.
      * intros Hin. by apply elem_of_cons in Hin as [?|?].
Qed.

Lemma filterRecordsForPlan_cons record rest df managed (h : store) :
  filterRecordsForPlan (record :: rest) df managed h
  = (e ← h !! record; f ← filterRecordsForPlan rest df managed h;
     Some (if relevant df managed h record then record :: f else f)).
Proof.
  simpl. unfold relevant. destruct (h !! record) as [e|]; simpl; [|done].
  destruct (filterRecordsForPlan rest df managed h); simpl; [|done].
  rewrite IsManagedRecord_elem. by destruct (df (DNSName e)), (bool_decide _).
Qed.

Lemma filterRecordsForPlan_filter records df managed (h : store) out :
  filterRecordsForPlan records df managed h = Some out ->
  out = filter (fun l => relevant df managed h l = true) records.
Proof.
  revert out. induction records as [|r rest IH]; intros out.
  - by intros [= <-].
  - rewrite filterRecordsForPlan_cons.
    destruct (h !! r) as [e|]; simpl; [|done].
    destruct (filterRecordsForPlan rest df managed h) as [f|]; simpl; [|done].
    intros [= <-]. rewrite (IH f eq_refl).
    destruct (relevant df managed h r) eqn:E.
    + by rewrite filter_cons_True.
    + rewrite filter_cons_False; [done|]. by rewrite E.
Qed.

Lemma filterRecordsForPlan_None records df managed (h : store) :
  filterRecordsForPlan records df managed h = None ->
  exists l, l ∈ records /\ h !! l = None.
Proof.
  induction records as [|r rest IH]; [done|].
  rewrite filterRecordsForPlan_cons.
  destruct (h !! r) as [e|] eqn:Er; simpl.
  - destruct (filterRecordsForPlan rest df managed h) as [f|]; simpl; [done|].
    intros _. destruct (IH eq_refl) as (l & Hl & Hn). exists l. split; [by right|done].
  - intros _. exists r. split; [by left|done].
Qed.

Lemma filter_twice {A} (P : A -> Prop) `{forall x, Decision (P x)} (l : list A) :
  filter P (filter P l) = filter P l.
Proof.
  induction l as [|x l IH]; [done|].
  destruct (decide (P x)).
  - rewrite !filter_cons_True by done. by rewrite IH.
  - by rewrite !filter_cons_False by done.
Qed.

(** X3: the record filter fails only on a nil pointer; otherwise it returns
    the records whose name the domain filter matches and whose type is
    managed, all of them, nothing else, in the order of the input; what it
    returns passes the filter unchanged a second time. *)
Theorem filterRecordsForPlan_keeps records df managed (h : store) :
  (is_Some (filterRecordsForPlan records df managed h) <-> allIn h records)
  /\ (forall out,
        filterRecordsForPlan records df managed h = Some out ->
        out = filter (fun l => relevant df managed h l = true) records
        /\ (forall l, l ∈ out
              <-> l ∈ records
                  /\ exists e, h !! l = Some e /\ df (DNSName e) = true
                               /\ RecordType e ∈ managed)
        /\ filterRecordsForPlan out df managed h = Some out).
Proof.
  split.
  - split.
    + intros [out Hout] l Hl.
      destruct (h !! l) as [e|] eqn:El; [by eexists|].
      exfalso. clear -Hout Hl El. revert out Hout.
      induction records as [|r rest IH]; intros out; [by apply elem_of_nil in Hl|].
      rewrite filterRecordsForPlan_cons.
      destruct (h !! r) as [e|] eqn:Er; simpl; [|done].
      destruct (filterRecordsForPlan rest df managed h) as [f|]; simpl; [|done].
      intros _. apply elem_of_cons in Hl as [->|Hl]; [congruence|].
      by apply (IH Hl f).
    + apply filterRecordsForPlan_returns.
  - intros out Hout.
    pose proof (filterRecordsForPlan_filter _ _ _ _ _ Hout) as Hf.
    split; [exact Hf|]. split.
    + intros l. rewrite Hf, list_elem_of_filter. unfold relevant. split.
      * intros [Hrel Hl]. split; [done|].
        destruct (h !! l) as [e|]; [|done]. exists e.
        apply andb_true_iff in Hrel as [Hd Hm].
        apply bool_decide_eq_true in Hm. done.
      * intros [Hl (e & He & Hd & Hm)]. split; [|done].
        rewrite He, Hd. simpl. by apply bool_decide_eq_true.
    + destruct (filterRecordsForPlan out df managed h) as [out2|] eqn:E2.
      * apply filterRecordsForPlan_filter in E2. rewrite E2, Hf. f_equal.
        apply filter_twice.
      * apply filterRecordsForPlan_None in E2 as (l & Hl & Hn).
        rewrite Hf in Hl. apply list_elem_of_filter in Hl as [Hrel _].
        unfold relevant in Hrel. by rewrite Hn in Hrel.
Qed.

Lemma filterRecordsForPlan_keeps_witness :
  filterRecordsForPlan [0; 1] MatchAllDomainFilters ["A"] storeDelete = Some [0; 1]
  /\ filterRecordsForPlan [0; 1] MatchAllDomainFilters ["TXT"] storeDelete = Some [].
Proof.
  destruct (filterRecordsForPlan_keeps [0; 1] MatchAllDomainFilters ["A"] storeDelete)
    as [[_ Hret] Hout].
  destruct Hret as [out Hsome].
  { intros l Hl. apply lookup_lt_is_Some. simpl.
    apply elem_of_cons in Hl as [->|Hl]; [lia|].
    apply list_elem_of_singleton in Hl as ->. lia. }
  destruct (Hout out Hsome) as (Hf & _). split.
  - rewrite Hsome, Hf. reflexivity.
  - reflexivity.
Defined.

Lemma filterOwnedLoop_filter `{EndpointPkg} ids eps (h : store) out :
  filterOwnedLoop ids eps h = Some out ->
  out = filter (fun l => passes ids h l = true) eps.
Proof.
  revert out. induction eps as [|ep rest IH]; intros out.
  - by intros [= <-].
  - rewrite filterOwnedLoop_cons.
    destruct (h !! ep) as [e|]; simpl; [|done].
    destruct (filterOwnedLoop ids rest h) as [f|]; simpl; [|done].
    intros [= <-]. rewrite (IH f eq_refl).
    destruct (passes ids h ep) eqn:E.
    + by rewrite filter_cons_True.
    + rewrite filter_cons_False; [done|]. by rewrite E.
Qed.

(** X4: the ownership filter returns the records that carry an owner label
    with an accepted owner, all of them, in the order of the input, and nil
    where there is none; filtering its result again changes nothing.  With
    migration off the old owner is not accepted. *)
Theorem filterOwnedRecords_keeps `{EndpointPkg} owner old mig eps (h : store) out :
  filterOwnedRecords owner old mig eps h = Some out ->
  let ids := if mig then [owner; old] else [owner] in
  elems out = filter (fun l => passes ids h l = true) eps
  /\ (out = None <-> forall l, l ∈ eps -> passes ids h l = false)
  /\ filterOwnedRecords owner old mig (elems out) h = Some out
  /\ (mig = false -> old <> owner ->
      forall l e, l ∈ elems out -> h !! l = Some e ->
        labelLookup (Labels e) OwnerLabelKey <> Some old).
Proof.
  intros Hrun ids.
  pose proof (filterOwnedRecords_loop _ _ _ _ _ _ Hrun) as Hloop. fold ids in Hloop.
  pose proof (filterOwnedLoop_filter _ _ _ _ Hloop) as Hf.
  split; [exact Hf|]. split; [|split].
  - unfold filterOwnedRecords in Hrun. fold ids in Hrun.
    rewrite Hloop in Hrun. simpl in Hrun. injection Hrun as Hout. split.
    + intros ->. simpl in Hf. intros l Hl.
      destruct (passes ids h l) eqn:E; [|done].
      assert (Hin : l ∈ filter (fun l => passes ids h l = true) eps)
        by (by apply list_elem_of_filter).
      rewrite <- Hf in Hin. by apply elem_of_nil in Hin.
    + intros Hnone. destruct out as [o|]; [|done].
      destruct (elems (Some o)) as [|x xs] eqn:Eo; [by simpl in Hout|].
      assert (Hin : x ∈ filter (fun l => passes ids h l = true) eps)
        by (rewrite <- Hf; by left).
      apply list_elem_of_filter in Hin as [Hp Hx].
      by rewrite (Hnone x Hx) in Hp.
  - unfold filterOwnedRecords. fold ids.
    destruct (filterOwnedLoop ids (elems out) h) as [f|] eqn:E2; simpl.
    + apply filterOwnedLoop_filter in E2.
      rewrite Hf, filter_twice, <- Hf in E2. subst f.
      unfold filterOwnedRecords in Hrun. fold ids in Hrun.
      rewrite Hloop in Hrun. exact Hrun.
    + exfalso. clear -Hf E2 Hloop.
      assert (Hall : allIn h (elems out)).
      { intros l Hl. rewrite Hf in Hl. apply list_elem_of_filter in Hl as [Hp _].
        unfold passes in Hp. destruct (h !! l); [by eexists|done]. }
      destruct (filterOwnedRecords_returns "" "" false (elems out) h Hall)
        as [x Hx].
      unfold filterOwnedRecords in Hx.
      assert (Hany : forall ids', is_Some (filterOwnedLoop ids' (elems out) h)).
      { intros ids'. clear -Hall. induction (elems out) as [|ep rest IH];
          simpl; [by eexists|].
        destruct (Hall ep) as [e He]; [by left|]. rewrite He. simpl.
        destruct IH as [f Hf]; [intros l Hl; apply Hall; by right|].
        rewrite Hf. simpl. by eexists. }
      destruct (Hany ids) as [f Hf']. congruence.
  - intros -> Hne l e Hl He Hlab. rewrite Hf in Hl.
    apply list_elem_of_filter in Hl as [Hp _].
    unfold passes in Hp. rewrite He, Hlab in Hp. simpl in ids. subst ids.
    unfold slicesContains in Hp. apply bool_decide_eq_true in Hp.
    apply list_elem_of_singleton in Hp. done.
Qed.

Lemma filterOwnedRecords_keeps_witness :
  @filterOwnedRecords sampleEndpoint "me" "you" false [0; 1] storeDelete
  = Some (Some [0])
  /\ @filterOwnedRecords sampleEndpoint "me" "you" false [0] storeDelete
     = Some (Some [0]).
Proof.
  assert (Hrun : @filterOwnedRecords sampleEndpoint "me" "you" false [0; 1]
                   storeDelete = Some (Some [0])) by (vm_compute; reflexivity).
  split; [exact Hrun|].
  exact (proj1 (proj2 (proj2
           (@filterOwnedRecords_keeps sampleEndpoint "me" "you" false [0; 1]
              storeDelete (Some [0]) Hrun)))).
Defined.

(** ** inheritOwner *)

Lemma inheritOwner_length `{EndpointPkg} from to (h h' : store) :
  inheritOwner from to h = Some h' -> length h' = length h.
Proof.
  unfold inheritOwner.
  destruct (h !! to) as [t|]; simpl; [|done].
  set (h1 := match Labels t with
             | None => <[to := withLabels t (Some ∅)]> h
             | Some _ => h
             end).
  assert (L1 : length h1 = length h).
  { subst h1. destruct (Labels t); [done|apply length_insert]. }
  destruct (h1 !! from) as [f|]; simpl; [|done].
  set (h2 := match Labels f with
             | None => <[from := withLabels f (Some ∅)]> h1
             | Some _ => h1
             end).
  assert (L2 : length h2 = length h1).
  { subst h2. destruct (Labels f); [done|apply length_insert]. }
  destruct (h2 !! from) as [f'|]; simpl; [|done].
  destruct (h2 !! to) as [t'|]; simpl; [|done].
  destruct (labelSet (Labels t') OwnerLabelKey _) as [m|]; simpl; [|done].
  intros [= <-]. rewrite length_insert. congruence.
Qed.




(** ** The grouping table, row by row *)

Lemma keyAt_Some (h : store) l ep : h !! l = Some ep -> keyAt h l = Some (keyOf ep).
Proof. unfold keyAt. by intros ->. Qed.

Lemma underKey_cons_eq (h : store) k x xs :
  keyAt h x = Some k -> underKey h k (x :: xs) = x :: underKey h k xs.
Proof. intros Hx. unfold underKey. by rewrite filter_cons_True. Qed.

Lemma underKey_cons_ne (h : store) k x xs :
  keyAt h x <> Some k -> underKey h k (x :: xs) = underKey h k xs.
Proof. intros Hx. unfold underKey. by rewrite filter_cons_False. Qed.

Lemma addCurrent_insert (h : store) rows e rows' :
  addCurrent h rows e = Some rows' ->
  exists ep, h !! e = Some ep
    /\ rows' = <[keyOf ep := {| current := Some e;
                               candidates :=
                                 candidates (default emptyRow (rows !! keyOf ep)) |}]>
                 rows.
Proof.
  unfold addCurrent, newPlanKey. destruct (h !! e) as [ep|]; simpl; [|done].
  fold (keyOf ep). destruct (rows !! keyOf ep) as [row|] eqn:E; simpl.
  - rewrite E. simpl. intros [= <-]. exists ep. by rewrite E.
  - rewrite lookup_insert_eq. simpl. intros [= <-]. exists ep. split; [done|].
    rewrite E. simpl. apply insert_insert_eq.
Qed.

Lemma addCandidate_insert (h : store) rows e rows' :
  addCandidate h rows e = Some rows' ->
  exists ep, h !! e = Some ep
    /\ rows' = <[keyOf ep := {| current := current (default emptyRow (rows !! keyOf ep));
                               candidates :=
                                 candidates (default emptyRow (rows !! keyOf ep))
                                 ++ [e] |}]>
                 rows.
Proof.
  unfold addCandidate, newPlanKey. destruct (h !! e) as [ep|]; simpl; [|done].
  fold (keyOf ep). destruct (rows !! keyOf ep) as [row|] eqn:E; simpl.
  - rewrite E. simpl. intros [= <-]. exists ep. by rewrite E.
  - rewrite lookup_insert_eq. simpl. intros [= <-]. exists ep. split; [done|].
    rewrite E. simpl. apply insert_insert_eq.
Qed.

Lemma rangeM_addCurrent_lookup (h : store) xs :
  forall rows rows',
    rangeM (addCurrent h) xs rows = Some rows' ->
    forall k,
      rows' !! k
      = match last (underKey h k xs) with
        | Some c => Some {| current := Some c;
                            candidates := candidates (default emptyRow (rows !! k)) |}
        | None => rows !! k
        end.
Proof.
  induction xs as [|x rest IH]; intros rows rows'; simpl.
  - by intros [= <-] k.
  - destruct (addCurrent h rows x) as [r1|] eqn:E1; simpl; [|done].
    intros Hrest k. rewrite (IH _ _ Hrest k).
    apply addCurrent_insert in E1 as (ep & Hep & ->).
    destruct (decide (k = keyOf ep)) as [->|Hne].
    + rewrite underKey_cons_eq by (by apply keyAt_Some).
      rewrite lookup_insert_eq. simpl. rewrite last_cons.
      by destruct (last (underKey h (keyOf ep) rest)).
    + rewrite underKey_cons_ne by (rewrite (keyAt_Some _ _ _ Hep); congruence).
      by rewrite lookup_insert_ne.
Qed.

Lemma rangeM_addCandidate_lookup (h : store) xs :
  forall rows rows',
    rangeM (addCandidate h) xs rows = Some rows' ->
    forall k,
      rows' !! k
      = match underKey h k xs with
        | [] => rows !! k
        | _ :: _ =>
            Some {| current := current (default emptyRow (rows !! k));
                    candidates := candidates (default emptyRow (rows !! k))
                                  ++ underKey h k xs |}
        end.
Proof.
  induction xs as [|x rest IH]; intros rows rows'; simpl.
  - by intros [= <-] k.
  - destruct (addCandidate h rows x) as [r1|] eqn:E1; simpl; [|done].
    intros Hrest k. rewrite (IH _ _ Hrest k).
    apply addCandidate_insert in E1 as (ep & Hep & ->).
    destruct (decide (k = keyOf ep)) as [->|Hne].
    + rewrite underKey_cons_eq by (by apply keyAt_Some).
      rewrite lookup_insert_eq. simpl.
      destruct (underKey h (keyOf ep) rest) as [|y ys]; [done|].
      by rewrite <- app_assoc.
    + rewrite underKey_cons_ne by (rewrite (keyAt_Some _ _ _ Hep); congruence).
      by rewrite lookup_insert_ne.
Qed.

Lemma buildTable_lookup p df (h : store) rows cur des :
  filterRecordsForPlan (Current p) df (ManagedRecords p) h = Some cur ->
  filterRecordsForPlan (Desired p) df (ManagedRecords p) h = Some des ->
  buildTable p df h = Some rows ->
  forall k,
    rows !! k
    = match last (underKey h k cur), underKey h k des with
      | None, [] => None
      | c, ds => Some {| current := c; candidates := ds |}
      end.
Proof.
  intros Hcur Hdes. unfold buildTable. rewrite Hcur. simpl.
  destruct (rangeM (addCurrent h) cur ∅) as [t1|] eqn:Et1; simpl; [|done].
  rewrite Hdes. simpl. intros Et2 k.
  rewrite (rangeM_addCandidate_lookup h des _ _ Et2 k).
  rewrite (rangeM_addCurrent_lookup h cur _ _ Et1 k), lookup_empty.
  by destruct (last (underKey h k cur)), (underKey h k des).
Qed.

Lemma buildTable_row_lists p df (h : store) rows :
  buildTable p df h = Some rows ->
  let cur := filter (fun l => relevant df (ManagedRecords p) h l = true) (Current p) in
  let des := filter (fun l => relevant df (ManagedRecords p) h l = true) (Desired p) in
  forall k,
    (rows !! k = None <-> underKey h k cur = [] /\ underKey h k des = [])
    /\ (forall row, rows !! k = Some row ->
          current row = last (underKey h k cur)
          /\ candidates row = underKey h k des).
Proof.
  intros Hrows cur des k.
  assert (Hlists : filterRecordsForPlan (Current p) df (ManagedRecords p) h = Some cur
                   /\ filterRecordsForPlan (Desired p) df (ManagedRecords p) h
                      = Some des).
  { unfold buildTable in Hrows.
    destruct (filterRecordsForPlan (Current p) df (ManagedRecords p) h)
      as [c|] eqn:Ec; simpl in Hrows; [|done].
    destruct (rangeM (addCurrent h) c ∅); simpl in Hrows; [|done].
    destruct (filterRecordsForPlan (Desired p) df (ManagedRecords p) h)
      as [d|] eqn:Ed; simpl in Hrows; [|done].
    by rewrite (filterRecordsForPlan_filter _ _ _ _ _ Ec),
               (filterRecordsForPlan_filter _ _ _ _ _ Ed). }
  destruct Hlists as [Hcur Hdes].
  rewrite (buildTable_lookup p df h rows cur des Hcur Hdes Hrows k).
  destruct (last (underKey h k cur)) as [c|] eqn:El,
           (underKey h k des) as [|d ds] eqn:Ed.
  - split; [split; [done|]|by intros row [= <-]].
    intros [Hnil _]. by rewrite Hnil in El.
  - split; [split; [done|by intros [_ ?]]|by intros row [= <-]].
  - split; [|done]. split; [|done]. intros _. split; [|done].
    by apply last_None.
  - split; [split; [done|by intros [_ ?]]|by intros row [= <-]].
Qed.

(** X6: the table that [Calculate] builds has a row for exactly the keys of
    the current and desired records that pass the record filter.  The
    current record of a row is the last current record under its key (a
    later one overwrites an earlier one), and its candidates are the
    desired records under its key, all of them, in the order of Desired. *)
Theorem buildTable_rows p df (h : store) rows :
  buildTable p df h = Some rows ->
  let cur := filter (fun l => relevant df (ManagedRecords p) h l = true) (Current p) in
  let des := filter (fun l => relevant df (ManagedRecords p) h l = true) (Desired p) in
  forall k,
    (rows !! k = None <-> underKey h k cur = [] /\ underKey h k des = [])
    /\ (forall row, rows !! k = Some row ->
          current row = last (underKey h k cur)
          /\ candidates row = underKey h k des).
Proof. apply buildTable_row_lists. Qed.

Lemma buildTable_rows_witness :
  exists rows row,
    buildTable planShared MatchAllDomainFilters storeShared = Some rows
    /\ rows !! {| dnsName := "foo.com."; setIdentifier := ""; recordType := "A" |}
       = Some row
    /\ current row = Some 1 /\ candidates row = [0].
Proof.
  assert (Hrow : (fun rows : gmap planKey planTableRow =>
                    rows !! {| dnsName := "foo.com."; setIdentifier := "";
                               recordType := "A" |})
                 <$> buildTable planShared MatchAllDomainFilters storeShared
                 = Some (Some {| current := Some 1; candidates := [0] |}))
    by (vm_compute; reflexivity).
  apply fmap_Some in Hrow as (rows & Hrows & Hrow).
  exists rows, {| current := Some 1; candidates := [0] |}.
  split; [exact Hrows|]. split; [by symmetry|].
  destruct (buildTable_rows planShared MatchAllDomainFilters storeShared rows Hrows
              {| dnsName := "foo.com."; setIdentifier := ""; recordType := "A" |})
    as [_ Hspec].
  destruct (Hspec _ (eq_sym Hrow)) as [Hc Hd]. clear Hrows Hrow Hspec.
  split; [rewrite Hc|rewrite Hd]; vm_compute; reflexivity.
Defined.

(** ** CompareBoolean and the provider-specific predicate *)

Lemma ParseBool_empty : ParseBool "" = None.
Proof. reflexivity. Qed.

Lemma CompareBoolean_boolValue d name cur prev :
  CompareBoolean d name cur prev
  = bool_decide (boolValue d prev = boolValue d cur).
Proof.
  unfold CompareBoolean, boolValue.
  assert (Hv : forall v,
            (if negb (bool_decide (v = ""))
             then match ParseBool v with Some b => b | None => d end
             else d) = default d (ParseBool v)).
  { intros v. case_bool_decide as Hv; simpl.
    - subst v. by rewrite ParseBool_empty.
    - by destruct (ParseBool v). }
  by rewrite !Hv.
Qed.



Lemma lastNamed_unique ds c :
  NoDup (Name <$> ds) -> c ∈ ds -> lastNamed (Name c) ds = Some c.
Proof.
  induction ds as [|d rest IH]; intros Hnd Hc; [by apply elem_of_nil in Hc|].
  simpl in Hnd. apply NoDup_cons in Hnd as [Hd Hnd]. simpl.
  apply elem_of_cons in Hc as [->|Hc].
  - destruct (lastNamed (Name d) rest) as [x|] eqn:E.
    + apply lastNamed_name in E as [Hn Hx]. exfalso. apply Hd.
      rewrite <- Hn. by apply list_elem_of_fmap_2.
    + by rewrite bool_decide_eq_true_2.
  - by rewrite (IH Hnd Hc).
Qed.

Lemma providerSpecific_same (p : Plan) (e : Endpoint) :
  NoDup (Name <$> ProviderSpecific e) ->
  (forall f, PropertyComparator p = Some f -> forall n v, f n v v = true) ->
  shouldUpdateProviderSpecific p e e = false.
Proof.
  intros Hnd Hrefl.
  destruct (shouldUpdateProviderSpecific p e e) eqn:E; [|done].
  unfold shouldUpdateProviderSpecific in E.
  apply providerSpecificLoop_exists in E as (c & Hc & Hm).
  rewrite desiredProperties_lookup, (lastNamed_unique _ _ Hnd Hc) in Hm.
  unfold propertyMismatch in Hm.
  destruct (PropertyComparator p) as [f|] eqn:Ef.
  - by rewrite (Hrefl f eq_refl) in Hm.
  - by rewrite bool_decide_eq_true_2 in Hm.
Qed.

(** X8: a record whose provider-specific properties have pairwise
    different names never calls for an update against itself, with no
    comparator or with a comparator that finds every value equal to
    itself. *)
Theorem shouldUpdateProviderSpecific_same (p : Plan) (e : Endpoint) :
  NoDup (Name <$> ProviderSpecific e) ->
  (forall f, PropertyComparator p = Some f -> forall n v, f n v v = true) ->
  shouldUpdateProviderSpecific p e e = false.
Proof. apply providerSpecific_same. Qed.

Lemma shouldUpdateProviderSpecific_same_witness :
  let e := withProperties (rec "a" [] None)
             [mkProperty "proxied" "true"; mkProperty "weight" "10"] in
  shouldUpdateProviderSpecific (samplePlan [] [] "me" "" false) e e = false.
Proof.
  intros e. apply shouldUpdateProviderSpecific_same.
  - simpl. apply NoDup_cons. split.
    + intros Hin. apply list_elem_of_singleton in Hin. discriminate Hin.
    + apply NoDup_singleton.
  - intros f Hf. discriminate Hf.
Defined.

(** X9: with [CompareBoolean] as the comparator, the provider-specific
    predicate fires exactly when some property of the current record
    stands for another truth value than the update's property of that
    name, a property that the update lacks standing for the default. *)
Theorem shouldUpdateProviderSpecific_boolean (p : Plan) (d : bool)
    (update cur : Endpoint) :
  PropertyComparator p = Some (CompareBoolean d) ->
  (shouldUpdateProviderSpecific p update cur = true
   <-> exists c, c ∈ ProviderSpecific cur
         /\ boolValue d (Value c)
            <> match lastNamed (Name c) (ProviderSpecific update) with
               | Some u => boolValue d (Value u)
               | None => d
               end).
Proof.
  intros Hcmp. unfold shouldUpdateProviderSpecific.
  rewrite providerSpecificLoop_exists, Hcmp.
  split; intros (c & Hc & Hm); exists c; (split; [done|]).
  - rewrite desiredProperties_lookup in Hm. unfold propertyMismatch in Hm.
    rewrite CompareBoolean_boolValue in Hm.
    apply negb_true_iff, bool_decide_eq_false in Hm.
    destruct (lastNamed (Name c) (ProviderSpecific update)); [congruence|].
    unfold boolValue in Hm at 1. rewrite ParseBool_empty in Hm. simpl in Hm.
    congruence.
  - rewrite desiredProperties_lookup. unfold propertyMismatch.
    rewrite CompareBoolean_boolValue.
    apply negb_true_iff, bool_decide_eq_false.
    destruct (lastNamed (Name c) (ProviderSpecific update)); [congruence|].
    unfold boolValue at 1. rewrite ParseBool_empty. simpl. congruence.
Qed.

Lemma shouldUpdateProviderSpecific_boolean_witness :
  let p := {| Current := []; Desired := []; Missing := []; Policies := [];
              PlanChanges := None; DomainFilter := None;
              PropertyComparator := Some (CompareBoolean false);
              ManagedRecords := []; TXTOwner := ""; HasMig := false;
              TXTOwnerMigrate := false; TXTOwnerOld := "" |} in
  let cur := withProperties (rec "a" [] None) [mkProperty "proxied" "true"] in
  shouldUpdateProviderSpecific p (rec "a" [] None) cur = true.
Proof.
  intros p cur.
  apply (shouldUpdateProviderSpecific_boolean p false (rec "a" [] None) cur eq_refl).
  exists (mkProperty "proxied" "true"). split; [by left|]. discriminate.
Defined.

(** ** Where the changes come from *)

Section Coverage.
Context `{EndpointPkg} `{ConflictResolver}.
Variable rangeRows : gmap planKey planTableRow -> list planTableRow.
Hypothesis rangeRows_perm : forall m, rangeRows m ≡ₚ (map_to_list m).*2.
Hypothesis ResolveUpdate_candidate :
  forall h c cs, cs <> [] -> ResolveUpdate h c cs ∈ cs.
Hypothesis ResolveCreate_candidate :
  forall h cs, cs <> [] -> ResolveCreate h cs ∈ cs.

(** The ways a turn of the loop can end, with what it appends, what it
    does to the size of the store and to the migration flag. *)
Lemma processRow_entries p st row st' :
  processRow p st row = Some st' ->
  (current row = None
   /\ changes st' = appendCreate (changes st)
                      [ResolveCreate (heap st) (candidates row)]
   /\ heap st' = heap st /\ hasMig st' = hasMig st)
  \/ (exists c, current row = Some c /\ candidates row = []
                /\ changes st' = appendDelete (changes st) [c]
                /\ heap st' = heap st /\ hasMig st' = hasMig st)
  \/ (exists c, current row = Some c /\ candidates row <> []
        /\ ((TXTOwnerMigrate p = true
             /\ changes st' = appendUpdate (changes st) (length (heap st)) c
             /\ length (heap st') = S (length (heap st))
             /\ hasMig st' = true)
            \/ st' = st
            \/ (changes st'
                = appendUpdate (changes st)
                    (ResolveUpdate (heap st) c (candidates row)) c
                /\ length (heap st') = length (heap st)
                /\ hasMig st' = hasMig st))).
Proof.
  destruct (current row) as [c|] eqn:Hc.
  - destruct (candidates row) as [|x xs] eqn:Hn.
    + rewrite (processRow_delete p st row c Hc Hn). intros [= <-].
      right. left. by exists c.
    + assert (Hne : candidates row <> []) by (by rewrite Hn).
      rewrite (processRow_taken p st row c Hc Hne), Hn.
      destruct (migrationApplies p row (heap st)) as [[]|] eqn:Hmig; simpl;
        [| |done].
      * intros Hrun. right. right. exists c. split; [done|]. split; [done|].
        left. apply migrationApplies_true in Hmig as [Hon _].
        pose proof (migrateRow_changes _ _ _ _ Hrun) as [Hch Hm].
        split; [done|]. split; [done|]. split; [|done].
        unfold migrateRow, DeepCopy in Hrun.
        destruct (heap st !! c) as [cur|]; simpl in Hrun; [|done].
        destruct ((heap st ++ [cur]) !! length (heap st)) as [u|];
          simpl in Hrun; [|done].
        destruct (labelSet (Labels u) OwnerLabelKey (TXTOwner p));
          simpl in Hrun; [|done].
        injection Hrun as <-. simpl. rewrite length_insert, length_app. simpl. lia.
      * intros Hrun. right. right. exists c. split; [done|]. split; [done|].
        right. pose proof (updateRow_changes _ _ _ _ _ Hrun) as [Hm _].
        apply updateRow_inherit in Hrun as [->|[Hch Hin]]; [by left|].
        right. split; [done|]. split; [|done]. by eapply inheritOwner_length.
  - rewrite (processRow_create p st row Hc). intros [= <-]. by left.
Qed.

Lemma processRow_origins rows n0 k p st row st' :
  rows !! k = Some row ->
  (is_Some (current row) \/ candidates row <> []) ->
  n0 <= length (heap st) ->
  originsOk rows n0 (changes st) ->
  processRow p st row = Some st' ->
  n0 <= length (heap st') /\ originsOk rows n0 (changes st').
Proof.
  intros Hk Hocc Hn0 (HC & HD & HO & HN) Hrun.
  apply processRow_entries in Hrun
    as [(Hc & -> & -> & _)
       |[(c & Hc & Hn & -> & -> & _)
        |(c & Hc & Hn & [(_ & -> & Hlen & _)|[->|(-> & Hlen & _)]])]];
    (split; [lia|]); unfold originsOk; simpl; rewrite ?elems_append.
  - split; [|done]. intros l Hl. apply elem_of_app in Hl as [Hl|Hl]; [by apply HC|].
    apply list_elem_of_singleton in Hl as ->. exists k, row.
    split; [done|]. split; [done|]. apply ResolveCreate_candidate.
    destruct Hocc as [[c Hc']|?]; [congruence|done].
  - split; [done|]. split; [|done].
    intros l Hl. apply elem_of_app in Hl as [Hl|Hl]; [by apply HD|].
    apply list_elem_of_singleton in Hl as ->. by exists k, row.
  - split; [done|]. split; [done|]. split.
    + intros l Hl. apply elem_of_app in Hl as [Hl|Hl]; [by apply HO|].
      apply list_elem_of_singleton in Hl as ->. by exists k, row.
    + intros l Hl. apply elem_of_app in Hl as [Hl|Hl]; [by apply HN|].
      apply list_elem_of_singleton in Hl as ->. by right.
  - done.
  - split; [done|]. split; [done|]. split.
    + intros l Hl. apply elem_of_app in Hl as [Hl|Hl]; [by apply HO|].
      apply list_elem_of_singleton in Hl as ->. by exists k, row.
    + intros l Hl. apply elem_of_app in Hl as [Hl|Hl]; [by apply HN|].
      apply list_elem_of_singleton in Hl as ->. left. exists k, row.
      split; [done|]. split; [by eexists|]. by apply ResolveUpdate_candidate.
Qed.

Lemma loop_origins p (h : store) df rows st :
  buildTable p df h = Some rows ->
  rangeM (processRow p) (rangeRows rows) (startState h) = Some st ->
  length h <= length (heap st) /\ originsOk rows (length h) (changes st).
Proof.
  intros Hrows.
  apply (rangeM_inv (processRow p)
           (fun s => length h <= length (heap s)
                     /\ originsOk rows (length h) (changes s))).
  - intros s row s' Hrow [Hlen Hok] Hstep.
    apply (rangeRows_lookup _ rangeRows_perm) in Hrow as [k Hk].
    destruct (buildTable_ok _ _ _ _ Hrows k row Hk) as (Hocc & _).
    by eapply processRow_origins.
  - split; [done|]. repeat split; intros l Hl; by apply elem_of_nil in Hl.
Qed.

Lemma defaultDomainFilter_filter p0 :
  DomainFilter (defaultDomainFilter p0)
  = Some (default MatchAllDomainFilters (DomainFilter p0)).
Proof. unfold defaultDomainFilter. by destruct (DomainFilter p0) eqn:E. Qed.

Lemma underKey_elem (h : store) k xs l :
  l ∈ underKey h k xs <-> l ∈ xs /\ keyAt h l = Some k.
Proof. unfold underKey. rewrite list_elem_of_filter. tauto. Qed.

(** What [Calculate_inv] gives when there are no policies: the lists that
    go into the ownership filter are those of the loop. *)
Lemma Calculate_plain p0 (h : store) p1 plan h' ch :
  Policies p0 = [] ->
  Calculate rangeRows p0 h = Some (p1, plan, h') ->
  PlanChanges plan = Some ch ->
  exists rows st,
    buildTable (defaultDomainFilter p0)
      (default MatchAllDomainFilters (DomainFilter p0)) h = Some rows
    /\ rangeM (processRow (defaultDomainFilter p0)) (rangeRows rows) (startState h)
       = Some st
    /\ h' = heap st
    /\ HasMig plan = hasMig st
    /\ (Missing p0 = [] -> Create ch = Create (changes st))
    /\ (forall l, l ∈ elems (Create (changes st)) -> l ∈ elems (Create ch))
    /\ elems (UpdateNew ch)
       = filter (fun l => passes (acceptedOwners p0) h' l = true)
           (elems (UpdateNew (changes st)))
    /\ elems (UpdateOld ch)
       = filter (fun l => passes (acceptedOwners p0) h' l = true)
           (elems (UpdateOld (changes st)))
    /\ elems (Delete ch)
       = filter (fun l => passes (acceptedOwners p0) h' l = true)
           (elems (Delete (changes st)))
    /\ elems (Create ch)
       = elems (Create (changes st))
         ++ filter (fun l => relevant (default MatchAllDomainFilters (DomainFilter p0))
                               (ManagedRecords p0 ++ [RecordTypeTXT]) h' l = true)
              (Missing p0).
Proof.
  intros Hpol Hrun Hch. apply Calculate_inv in Hrun
    as (df & rows & st & raw & un & uo & de & -> & Hdf & Hrows & Hst & ->
        & Hraw & Hun & Huo & Hde & Hch' & _ & _ & Hmig).
  rewrite Hch in Hch'. injection Hch' as ->. simpl.
  rewrite defaultDomainFilter_filter in Hdf. injection Hdf as <-.
  destruct (defaultDomainFilter_fields p0)
    as (_ & _ & Em & Ep & _ & _ & Emr & Eo & _ & Emig & Eold).
  set (p := defaultDomainFilter p0) in *.
  assert (Hlists : UpdateOld raw = UpdateOld (changes st)
                   /\ UpdateNew raw = UpdateNew (changes st)
                   /\ Delete raw = Delete (changes st)
                   /\ (Missing p0 = [] -> Create raw = Create (changes st))
                   /\ (forall l, l ∈ elems (Create (changes st)) ->
                         l ∈ elems (Create raw))
                   /\ elems (Create raw)
                      = elems (Create (changes st))
                        ++ filter (fun l =>
                             relevant (default MatchAllDomainFilters (DomainFilter p0))
                               (ManagedRecords p0 ++ [RecordTypeTXT]) (heap st) l
                             = true) (Missing p0)).
  { unfold rawChanges in Hraw. rewrite Ep, Hpol, Em, Emr in Hraw. simpl in Hraw.
    destruct (0 <? length (Missing p0))%nat eqn:E0.
    - destruct Hraw as (ms & Hms & ->). simpl.
      split; [done|]. split; [done|]. split; [done|]. split; [|split].
      + intros Hm. by rewrite Hm in E0.
      + intros l Hl. rewrite elems_append. apply elem_of_app. by left.
      + rewrite elems_append. f_equal.
        by apply filterRecordsForPlan_filter in Hms.
    - subst raw. split; [done|]. split; [done|]. split; [done|].
      split; [done|]. split; [done|].
      destruct (Missing p0); [|done]. by rewrite filter_nil, app_nil_r. }
  destruct Hlists as (E1 & E2 & E3 & E4 & E5 & E6).
  rewrite E1 in Huo. rewrite E2 in Hun. rewrite E3 in Hde.
  apply filterOwnedRecords_loop, filterOwnedLoop_filter in Hun, Huo, Hde.
  assert (Hacc : (if TXTOwnerMigrate p then [TXTOwner p; TXTOwnerOld p]
                  else [TXTOwner p]) = acceptedOwners p0)
    by (unfold acceptedOwners; by rewrite Eo, Emig, Eold).
  rewrite Hacc in Hun, Huo, Hde.
  exists rows, st.
  split; [done|]. split; [done|]. split; [done|]. split; [done|].
  split; [done|]. split; [done|]. split; [done|]. split; [done|].
  split; [done|done].
Qed.

(** X10: without policies and without missing records, what [Calculate]
    returns can be traced to the input.  A Create entry is a desired
    record that passes the record filter, under a key that no current
    record has; a Delete entry is a current record under a key that no
    desired record has; an UpdateOld entry is a current record under a key
    that some desired record has; an UpdateNew entry is a desired record or
    a record that [Calculate] made. *)
Theorem Calculate_origins p0 (h : store) p1 plan h' ch :
  Policies p0 = [] -> Missing p0 = [] ->
  Calculate rangeRows p0 h = Some (p1, plan, h') ->
  PlanChanges plan = Some ch ->
  let df := default MatchAllDomainFilters (DomainFilter p0) in
  let cur := filter (fun l => relevant df (ManagedRecords p0) h l = true)
               (Current p0) in
  let des := filter (fun l => relevant df (ManagedRecords p0) h l = true)
               (Desired p0) in
  (forall l, l ∈ elems (Create ch) ->
     l ∈ des /\ exists k, keyAt h l = Some k /\ underKey h k cur = [])
  /\ (forall l, l ∈ elems (Delete ch) ->
        l ∈ cur /\ exists k, keyAt h l = Some k /\ underKey h k des = [])
  /\ (forall l, l ∈ elems (UpdateOld ch) ->
        l ∈ cur /\ exists k, keyAt h l = Some k /\ underKey h k des <> [])
  /\ (forall l, l ∈ elems (UpdateNew ch) -> l ∈ des \/ length h <= l).
Proof.
  intros Hpol Hmiss Hrun Hch df cur des.
  destruct (Calculate_plain _ _ _ _ _ _ Hpol Hrun Hch)
    as (rows & st & Hrows & Hst & -> & _ & Hcreate & _ & Hun & Huo & Hde & _).
  destruct (loop_origins _ _ _ _ _ Hrows Hst) as (_ & HC & HD & HO & HN).
  destruct (defaultDomainFilter_fields p0)
    as (Ec & Ed & _ & _ & _ & _ & Emr & _).
  assert (Hspec : forall k row, rows !! k = Some row ->
            current row = last (underKey h k cur)
            /\ candidates row = underKey h k des).
  { intros k row Hk.
    destruct (buildTable_row_lists _ _ _ _ Hrows k) as [_ Hrow].
    rewrite Ec, Ed, Emr in Hrow. by apply Hrow. }
  split; [|split; [|split]].
  - intros l Hl. rewrite (Hcreate Hmiss) in Hl.
    destruct (HC l Hl) as (k & row & Hk & Hnone & Hin).
    destruct (Hspec k row Hk) as [Hc Hd]. rewrite Hd in Hin.
    apply underKey_elem in Hin as [Hin Hkey]. split; [done|].
    exists k. split; [done|]. apply last_None. by rewrite <- Hc.
  - intros l Hl. rewrite Hde in Hl. apply list_elem_of_filter in Hl as [_ Hl].
    destruct (HD l Hl) as (k & row & Hk & Hcur & Hnil).
    destruct (Hspec k row Hk) as [Hc Hd]. rewrite Hc in Hcur.
    apply last_Some_elem_of, underKey_elem in Hcur as [Hin Hkey].
    split; [done|]. exists k. split; [done|]. by rewrite <- Hd.
  - intros l Hl. rewrite Huo in Hl. apply list_elem_of_filter in Hl as [_ Hl].
    destruct (HO l Hl) as (k & row & Hk & Hcur & Hnil).
    destruct (Hspec k row Hk) as [Hc Hd]. rewrite Hc in Hcur.
    apply last_Some_elem_of, underKey_elem in Hcur as [Hin Hkey].
    split; [done|]. exists k. split; [done|]. by rewrite <- Hd.
  - intros l Hl. rewrite Hun in Hl. apply list_elem_of_filter in Hl as [_ Hl].
    destruct (HN l Hl) as [(k & row & Hk & _ & Hin)|?]; [|by right].
    destruct (Hspec k row Hk) as [_ Hd]. rewrite Hd in Hin.
    apply underKey_elem in Hin as [Hin _]. by left.
Qed.

(** X11: [Calculate] never takes a record out of the store, and it adds one
    exactly when it migrates an owner: the returned plan has HasMig set if
    and only if the store has grown by a copy.  With TXTOwnerMigrate off
    the flag stays off and no record is made, so that every record of the
    change lists is one of the caller's. *)
Theorem Calculate_copies p0 (h : store) p1 plan h' :
  Calculate rangeRows p0 h = Some (p1, plan, h') ->
  length h <= length h'
  /\ (HasMig plan = true <-> length h < length h')
  /\ (TXTOwnerMigrate p0 = false -> HasMig plan = false /\ length h' = length h).
Proof.
  intros Hrun. apply Calculate_inv in Hrun
    as (df & rows & st & raw & un & uo & de & -> & _ & _ & Hst & ->
        & _ & _ & _ & _ & _ & _ & _ & ->).
  destruct (defaultDomainFilter_fields p0)
    as (_ & _ & _ & _ & _ & _ & _ & _ & _ & Emig & _).
  rewrite <- Emig.
  apply (rangeM_inv (processRow (defaultDomainFilter p0))
           (fun s => length h <= length (heap s)
                     /\ (hasMig s = true <-> length h < length (heap s))
                     /\ (TXTOwnerMigrate (defaultDomainFilter p0) = false ->
                         hasMig s = false /\ length (heap s) = length h))
           (rangeRows rows) ) with (s := startState h); [| |exact Hst].
  - intros s row s' _ (Hle & Hiff & Hoff) Hstep.
    apply processRow_entries in Hstep
      as [(_ & _ & -> & ->)
         |[(c & _ & _ & _ & -> & ->)
          |(c & _ & _ & [(Hon & _ & Hlen & ->)|[->|(_ & Hlen & ->)]])]];
      try done.
    + split; [lia|]. split; [split; [lia|done]|]. intros Hoff'. congruence.
    + rewrite Hlen. done.
  - simpl. split; [done|]. split; [|done]. split; [done|lia].
Qed.

Lemma relevant_frame W (h h' : store) df managed l :
  storeFrame W h h' -> is_Some (h !! l) ->
  relevant df managed h' l = relevant df managed h l.
Proof.
  intros Hf [e He]. destruct (Hf l e He) as (e' & He' & (Hn & _ & Ht & _) & _).
  unfold relevant. by rewrite He, He', Hn, Ht.
Qed.

Lemma filter_ext_in {A} (P Q : A -> Prop) `{!forall x, Decision (P x)}
    `{!forall x, Decision (Q x)} (l : list A) :
  (forall x, x ∈ l -> P x <-> Q x) -> filter P l = filter Q l.
Proof.
  induction l as [|a l IH]; intros Hext; [done|].
  assert (Hl : filter P l = filter Q l).
  { apply IH. intros x Hx. apply Hext. by right. }
  destruct (decide (P a)) as [Ha|Ha].
  - rewrite !filter_cons_True; [by rewrite Hl| |done].
    apply (Hext a); [by left|done].
  - rewrite !filter_cons_False; [done| |done].
    intros Hq. apply Ha. apply (Hext a); [by left|done].
Qed.

(** X12: the records of Missing go to the end of Create as they are: those
    of them that match the domain filter and have a managed type or type
    TXT, in the order of Missing, after the creates of the loop.  They are
    not grouped by key, not handed to the resolver and not filtered by
    owner.  The creates before them are desired records. *)
Theorem Calculate_missing p0 (h : store) p1 plan h' ch :
  Policies p0 = [] ->
  allIn h (Missing p0) ->
  Calculate rangeRows p0 h = Some (p1, plan, h') ->
  PlanChanges plan = Some ch ->
  exists found,
    elems (Create ch)
    = found
      ++ filter (fun l => relevant (default MatchAllDomainFilters (DomainFilter p0))
                            (ManagedRecords p0 ++ [RecordTypeTXT]) h l = true)
           (Missing p0)
    /\ (forall l, l ∈ found -> l ∈ Desired p0).
Proof.
  intros Hpol Hmiss Hrun Hch.
  destruct (Calculate_plain _ _ _ _ _ _ Hpol Hrun Hch)
    as (rows & st & Hrows & Hst & -> & _ & _ & _ & _ & _ & _ & Hcreate).
  destruct (loop_origins _ _ _ _ _ Hrows Hst) as (_ & HC & _).
  destruct (defaultDomainFilter_fields p0) as (_ & Ed & _).
  exists (elems (Create (changes st))). split.
  - rewrite Hcreate. f_equal. apply filter_ext_in. intros l Hl.
    rewrite (relevant_frame (fun _ => True) h (heap st)); [done| |by apply Hmiss].
    by apply (loop_frame (fun _ => True)) in Hst.
  - intros l Hl. destruct (HC l Hl) as (k & row & Hk & _ & Hin).
    destruct (buildTable_ok _ _ _ _ Hrows k row Hk) as (_ & _ & Hcands).
    rewrite <- Ed. by apply Hcands.
Qed.

(** ** One create per free key, one delete per abandoned key *)

Lemma underKey_snoc (h : store) k xs x :
  underKey h k (xs ++ [x])
  = underKey h k xs ++ (if decide (keyAt h x = Some k) then [x] else []).
Proof.
  unfold underKey. by rewrite filter_app.
Qed.


Lemma rowOk_candidate (h : store) C D k row x :
  rowOk h C D k row -> x ∈ candidates row -> keyAt h x = Some k.
Proof.
  intros (_ & _ & Hcands) Hx. destruct (Hcands x Hx) as [_ (e & He & Hk)].
  unfold keyAt. rewrite He. simpl. by rewrite Hk.
Qed.

Lemma rowOk_current (h : store) C D k row c :
  rowOk h C D k row -> current row = Some c -> keyAt h c = Some k.
Proof.
  intros (_ & Hcur & _) Hc. destruct (Hcur c Hc) as [_ (e & He & Hk)].
  unfold keyAt. rewrite He. simpl. by rewrite Hk.
Qed.

(** What a turn of the loop on a row under key [k'] does to the Create and
    Delete entries under key [k]. *)
Lemma processRow_key (h0 : store) C D k k' p st row st' :
  rowOk h0 C D k' row ->
  processRow p st row = Some st' ->
  (k' <> k ->
   underKey h0 k (elems (Create (changes st')))
   = underKey h0 k (elems (Create (changes st)))
   /\ underKey h0 k (elems (Delete (changes st')))
      = underKey h0 k (elems (Delete (changes st))))
  /\ (k' = k ->
      match current row with
      | None =>
          (exists x, x ∈ candidates row
             /\ underKey h0 k (elems (Create (changes st')))
                = underKey h0 k (elems (Create (changes st))) ++ [x])
          /\ underKey h0 k (elems (Delete (changes st')))
             = underKey h0 k (elems (Delete (changes st)))
      | Some c =>
          underKey h0 k (elems (Create (changes st')))
          = underKey h0 k (elems (Create (changes st)))
          /\ underKey h0 k (elems (Delete (changes st')))
             = underKey h0 k (elems (Delete (changes st)))
               ++ match candidates row with [] => [c] | _ => [] end
      end).
Proof.
  intros Hrow Hrun. pose proof Hrow as (Hocc & _ & _).
  apply processRow_entries in Hrun
    as [(Hc & -> & _ & _)
       |[(c & Hc & Hn & -> & _ & _)
        |(c & Hc & Hn & Hcases)]].
  - assert (Hx : ResolveCreate (heap st) (candidates row) ∈ candidates row).
    { apply ResolveCreate_candidate. destruct Hocc as [[c Hc']|?]; [congruence|done]. }
    pose proof (rowOk_candidate _ _ _ _ _ _ Hrow Hx) as Hkx.
    simpl. rewrite elems_append, underKey_snoc, Hkx. split.
    + intros Hne. rewrite decide_False by congruence. by rewrite app_nil_r.
    + intros ->. rewrite Hc, decide_True by done. split; [|done].
      by eexists.
  - pose proof (rowOk_current _ _ _ _ _ _ Hrow Hc) as Hkc.
    simpl. rewrite elems_append, underKey_snoc, Hkc. split.
    + intros Hne. rewrite decide_False by congruence. by rewrite app_nil_r.
    + intros ->. rewrite Hc, Hn, decide_True by done. done.
  - assert (Hsame : Create (changes st') = Create (changes st)
                    /\ Delete (changes st') = Delete (changes st)).
    { destruct Hcases as [(_ & -> & _)|[->|(-> & _)]]; done. }
    destruct Hsame as [-> ->]. split; [done|]. intros _. rewrite Hc.
    split; [done|]. destruct (candidates row); [done|]. by rewrite app_nil_r.
Qed.

Lemma loop_other_keys (h0 : store) C D p k (kvs : list (planKey * planTableRow)) st st' :
  (forall k' row, (k', row) ∈ kvs -> rowOk h0 C D k' row) ->
  k ∉ kvs.*1 ->
  rangeM (processRow p) kvs.*2 st = Some st' ->
  underKey h0 k (elems (Create (changes st')))
  = underKey h0 k (elems (Create (changes st)))
  /\ underKey h0 k (elems (Delete (changes st')))
     = underKey h0 k (elems (Delete (changes st))).
Proof.
  intros Hrows Hk.
  apply (rangeM_inv (processRow p)
           (fun s => underKey h0 k (elems (Create (changes s)))
                     = underKey h0 k (elems (Create (changes st)))
                     /\ underKey h0 k (elems (Delete (changes s)))
                        = underKey h0 k (elems (Delete (changes st)))));
    [|done].
  intros s row s' Hin [Hc Hd] Hstep.
  apply list_elem_of_fmap in Hin as [[k' r] [-> Hin]]. simpl in Hstep.
  destruct (processRow_key h0 C D k k' p s r s' (Hrows _ _ Hin) Hstep) as [Hne _].
  destruct Hne as [Hc' Hd'].
  - intros ->. apply Hk. apply list_elem_of_fmap. by exists (k, r).
  - by rewrite Hc', Hd'.
Qed.

(** The Create and Delete entries of the loop under each key. *)
Lemma loop_key_lists p (h : store) df rows st :
  buildTable p df h = Some rows ->
  rangeM (processRow p) (rangeRows rows) (startState h) = Some st ->
  forall k,
    match rows !! k with
    | None =>
        underKey h k (elems (Create (changes st))) = []
        /\ underKey h k (elems (Delete (changes st))) = []
    | Some row =>
        match current row with
        | None =>
            (exists x, x ∈ candidates row
               /\ underKey h k (elems (Create (changes st))) = [x])
            /\ underKey h k (elems (Delete (changes st))) = []
        | Some c =>
            underKey h k (elems (Create (changes st))) = []
            /\ underKey h k (elems (Delete (changes st)))
               = match candidates row with [] => [c] | _ => [] end
        end
    end.
Proof.
  intros Hrows Hst k.
  pose proof (buildTable_ok _ _ _ _ Hrows) as Htable.
  destruct (fmap_Permutation_inv snd _ _ (rangeRows_perm rows))
    as (kvs & Hkvs & Hperm).
  rewrite Hkvs in Hst.
  assert (Hok : forall k' row, (k', row) ∈ kvs ->
            rowOk h (Current p) (Desired p) k' row).
  { intros k' row Hin. rewrite Hperm in Hin.
    apply elem_of_map_to_list in Hin. by apply Htable. }
  assert (Hnd : NoDup kvs.*1) by (rewrite Hperm; apply NoDup_fst_map_to_list).
  destruct (rows !! k) as [row|] eqn:Hk.
  - assert (Hin : (k, row) ∈ kvs)
      by (rewrite Hperm; by apply elem_of_map_to_list).
    apply list_elem_of_split in Hin as (l1 & l2 & ->).
    rewrite fmap_app, fmap_cons in Hnd. simpl in Hnd.
    apply NoDup_app in Hnd as (_ & Hl1 & Hnd).
    apply NoDup_cons in Hnd as [Hl2 _].
    assert (Hk1 : k ∉ l1.*1).
    { intros Hin. apply (Hl1 k Hin). by left. }
    rewrite fmap_app, fmap_cons, rangeM_app in Hst. simpl in Hst.
    destruct (rangeM (processRow p) l1.*2 (startState h)) as [s1|] eqn:Hs1;
      simpl in Hst; [|done].
    destruct (processRow p s1 row) as [s2|] eqn:Hs2; simpl in Hst; [|done].
    assert (Hok1 : forall k' r, (k', r) ∈ l1 ->
              rowOk h (Current p) (Desired p) k' r).
    { intros k' r Hin. apply Hok. apply elem_of_app. by left. }
    assert (Hok2 : forall k' r, (k', r) ∈ l2 ->
              rowOk h (Current p) (Desired p) k' r).
    { intros k' r Hin. apply Hok. apply elem_of_app. right. by right. }
    destruct (loop_other_keys h _ _ p k l1 _ _ Hok1 Hk1 Hs1) as [Hc1 Hd1].
    destruct (loop_other_keys h _ _ p k l2 _ _ Hok2 Hl2 Hst) as [Hc2 Hd2].
    assert (Hrow : rowOk h (Current p) (Desired p) k row).
    { apply Hok. apply elem_of_app. right. by left. }
    destruct (processRow_key h _ _ k k p s1 row s2 Hrow Hs2) as [_ Heq].
    specialize (Heq eq_refl). simpl in Hc1, Hd1.
    rewrite Hc2, Hd2. rewrite Hc1, Hd1 in Heq.
    destruct (current row) as [c|].
    + destruct Heq as [-> ->]. done.
    + destruct Heq as [(x & Hx & ->) ->]. split; [|done]. by exists x.
  - assert (Hnone : k ∉ kvs.*1).
    { intros Hin. apply list_elem_of_fmap in Hin as [[k' r] [-> Hin]].
      rewrite Hperm in Hin. apply elem_of_map_to_list in Hin. simpl in Hk.
      congruence. }
    by destruct (loop_other_keys h _ _ p k kvs _ _ Hok Hnone Hst) as [-> ->].
Qed.

(** X13: without policies and without missing records, [Calculate] creates
    one record for every key that some desired record has and no current
    record has, a desired record under that key, and nothing else: under
    any other key Create has no entry. *)
Theorem Calculate_creates p0 (h : store) p1 plan h' ch :
  Policies p0 = [] -> Missing p0 = [] ->
  Calculate rangeRows p0 h = Some (p1, plan, h') ->
  PlanChanges plan = Some ch ->
  let df := default MatchAllDomainFilters (DomainFilter p0) in
  let cur := filter (fun l => relevant df (ManagedRecords p0) h l = true)
               (Current p0) in
  let des := filter (fun l => relevant df (ManagedRecords p0) h l = true)
               (Desired p0) in
  forall k,
    match underKey h k cur, underKey h k des with
    | [], _ :: _ =>
        exists x, x ∈ underKey h k des
          /\ underKey h k (elems (Create ch)) = [x]
    | _, _ => underKey h k (elems (Create ch)) = []
    end.
Proof.
  intros Hpol Hmiss Hrun Hch df cur des k.
  destruct (Calculate_plain _ _ _ _ _ _ Hpol Hrun Hch)
    as (rows & st & Hrows & Hst & -> & _ & Hcreate & _).
  rewrite (Hcreate Hmiss).
  pose proof (loop_key_lists _ _ _ _ _ Hrows Hst k) as Hlists.
  destruct (defaultDomainFilter_fields p0)
    as (Ec & Ed & _ & _ & _ & _ & Emr & _).
  destruct (buildTable_row_lists _ _ _ _ Hrows k) as [Hnone Hsome].
  rewrite Ec, Ed, Emr in Hnone, Hsome. fold df cur des in Hnone, Hsome.
  destruct (rows !! k) as [row|] eqn:Hk.
  - destruct (Hsome row eq_refl) as [Hc Hd].
    destruct (current row) as [c|].
    + destruct Hlists as [Hcr _].
      destruct (underKey h k cur); [done|]. by destruct (underKey h k des).
    + destruct Hlists as [(x & Hx & Hcr) _].
      symmetry in Hc. apply last_None in Hc. rewrite Hc.
      rewrite Hd in Hx. destruct (underKey h k des) as [|d ds] eqn:Hdes.
      * by apply elem_of_nil in Hx.
      * by exists x.
  - destruct Hlists as [Hcr _].
    destruct (proj1 Hnone eq_refl) as [-> ->]. done.
Qed.


(** ** One update per key that calls for it *)












End Coverage.

(** ** The further properties at work *)

Lemma firstCandidate_update (h : store) c cs :
  cs <> [] -> @ResolveUpdate firstCandidate h c cs ∈ cs.
Proof. intros Hcs. destruct cs as [|x xs]; [congruence|]. left. Qed.

Lemma firstCandidate_create (h : store) cs :
  cs <> [] -> @ResolveCreate firstCandidate h cs ∈ cs.
Proof. intros Hcs. destruct cs as [|x xs]; [congruence|]. left. Qed.

Lemma run_mixed :
  run planMixed storeMixed
  = Some (defaultDomainFilter planMixed, returned planMixed changesMixed false,
          storeMixedAfter).
Proof. vm_compute. reflexivity. Qed.

Lemma Calculate_origins_witness :
  2 ∈ Desired planMixed
  /\ exists k, keyAt storeMixed 2 = Some k
       /\ underKey storeMixed k
            (filter (fun l => relevant MatchAllDomainFilters ["A"; "CNAME"]
                                storeMixed l = true) (Current planMixed)) = [].
Proof.
  destruct (@Calculate_origins sampleEndpoint firstCandidate rangeInKeyOrder
              rangeInKeyOrder_perm firstCandidate_update firstCandidate_create
              planMixed storeMixed _ _ _ changesMixed eq_refl eq_refl
              run_mixed eq_refl) as (HC & _).
  destruct (HC 2) as [Hin Hkey]; [by left|].
  split; [|exact Hkey].
  apply list_elem_of_filter in Hin as [_ Hin]. exact Hin.
Defined.

Lemma Calculate_copies_witness :
  length storeMigrate < length storeMigrated.
Proof.
  assert (Hrun : run planMigrate storeMigrate
                 = Some (defaultDomainFilter planMigrate,
                         returned planMigrate
                           {| Create := None; UpdateOld := Some [0];
                              UpdateNew := Some [2]; Delete := None |} true,
                         storeMigrated))
    by (vm_compute; reflexivity).
  destruct (@Calculate_copies sampleEndpoint firstCandidate rangeInKeyOrder
              _ _ _ _ _ Hrun) as (_ & Hiff & _).
  clear Hrun. apply Hiff. reflexivity.
Defined.

Lemma Calculate_missing_witness :
  exists found, [0; 1] = found ++ [1] /\ forall l, l ∈ found -> l ∈ [0].
Proof.
  assert (Hrun : run planMissing storeMissing
                 = Some (defaultDomainFilter planMissing,
                         returned planMissing
                           {| Create := Some [0; 1]; UpdateOld := None;
                              UpdateNew := None; Delete := None |} false,
                         storeMissing))
    by (vm_compute; reflexivity).
  assert (Hall : allIn storeMissing (Missing planMissing)).
  { intros l Hl. apply elem_of_cons in Hl as [->|Hl]; [by eexists|].
    apply list_elem_of_singleton in Hl as ->. by eexists. }
  destruct (@Calculate_missing sampleEndpoint firstCandidate rangeInKeyOrder
              rangeInKeyOrder_perm firstCandidate_update firstCandidate_create
              planMissing storeMissing _ _ _ _ eq_refl Hall Hrun eq_refl)
    as (found & Heq & Hsub).
  clear Hrun. exists found. split; [|exact Hsub].
  match type of Heq with
  | _ = _ ++ ?f => assert (Hf : f = [1]) by (vm_compute; reflexivity)
  end.
  rewrite Hf in Heq. exact Heq.
Defined.

Lemma Calculate_creates_witness :
  exists x, underKey storeMixed (keyFor "new.com.") (elems (Create changesMixed)) = [x].
Proof.
  pose proof (@Calculate_creates sampleEndpoint firstCandidate rangeInKeyOrder
                rangeInKeyOrder_perm firstCandidate_create
                planMixed storeMixed _ _ _ changesMixed eq_refl eq_refl
                run_mixed eq_refl (keyFor "new.com.")) as Hk.
  revert Hk.
  destruct (underKey storeMixed (keyFor "new.com.")
              (filter _ (Current planMixed))) eqn:E1;
    [|vm_compute in E1; discriminate E1].
  destruct (underKey storeMixed (keyFor "new.com.")
              (filter _ (Desired planMixed))) eqn:E2;
    [vm_compute in E2; discriminate E2|].
  intros (x & _ & Hx). by exists x.
Defined.




Lemma Calculate_returns_witness : is_Some (run planMixed storeMixed).
Proof.
  apply (@Calculate_returns sampleEndpoint firstCandidate rangeInKeyOrder
           rangeInKeyOrder_perm firstCandidate_update planMixed storeMixed).
  - intros l Hl. apply elem_of_cons in Hl as [->|Hl]; [by eexists|].
    apply list_elem_of_singleton in Hl as ->. by eexists.
  - intros l Hl. apply elem_of_cons in Hl as [->|Hl]; [by eexists|].
    apply list_elem_of_singleton in Hl as ->. by eexists.
  - intros l Hl. by apply elem_of_nil in Hl.
  - intros Hmig. discriminate Hmig.
  - intros pol Hpol. by apply elem_of_nil in Hpol.
Defined.


Lemma loop_keeps_pairs_witness :
  exists df rows st,
    buildTable (defaultDomainFilter (planUpdate "")) df storeUpdate = Some rows
    /\ rangeM (@processRow sampleEndpoint firstCandidate (defaultDomainFilter (planUpdate "")))
         (rangeInKeyOrder rows) (startState storeUpdate) = Some st
    /\ length (elems (UpdateOld (changes st)))
       = length (elems (UpdateNew (changes st))).
Proof.
  assert (Hrun : run (planUpdate "") storeUpdate
                 = Some (defaultDomainFilter (planUpdate ""),
                         returned (planUpdate "")
                           {| Create := None; UpdateOld := None;
                              UpdateNew := Some [1]; Delete := None |} false,
                         storeUpdated))
    by (vm_compute; reflexivity).
  destruct (@loop_keeps_pairs sampleEndpoint firstCandidate rangeInKeyOrder
              rangeInKeyOrder_perm firstCandidate_update _ _ _ _ _ Hrun)
    as (df & rows & st & Hrows & Hst & _ & _ & Hlen).
  clear Hrun. by exists df, rows, st.
Defined.
